(** * FCND-Controls: the cascaded controller of [controller.py]

    A shallow embedding of [NonlinearController] and of the numpy and
    Python primitives it calls, followed by the properties of its stages.

    Modelling conventions.
    - Python floats and numpy float64 values are real numbers: rounding,
      overflow, infinities and NaN are outside the model.  numpy's division
      by zero raises nothing (it warns and yields inf or nan); the model
      writes it with the total division of the reals, and no theorem
      below relies on the value of a quotient whose divisor is zero.
      The one place where the source can divide by zero on finite inputs,
      the time interval of [trajectory_control], is also embedded with
      numpy's values kept ([np_float], [trajectory_control_np]).
    - A method of the class is a function from the controller to a pair of
      an outcome (a returned value or a raised Python exception) and the
      controller after the call, so that the instance attributes are
      threaded explicitly.
    - Python lists are lists, indexed by integers with Python's rule for
      negative indices. *)

From Stdlib Require Import Reals Lra Lia ZArith List Bool Sorted RNsatz.
Import ListNotations.

Local Open Scope R_scope.

(** ** Python outcomes *)

Inductive py_exception : Set :=
| ValueError
| IndexError.

Inductive outcome (A : Type) : Type :=
| Returned (a : A)
| Raised (e : py_exception).

Arguments Returned {A} a.
Arguments Raised {A} e.

(** ** Vectors and matrices (numpy arrays of fixed shape) *)

Definition vec2 : Type := R * R.
Definition vec3 : Type := R * R * R.
Definition mat3 : Type := vec3 * vec3 * vec3.

Definition zero3 : vec3 := (0, 0, 0).

Definition get2 (v : vec2) (i : nat) : R :=
  match i with O => fst v | _ => snd v end.

Definition get3 (v : vec3) (i : nat) : R :=
  let '(a, b, c) := v in
  match i with O => a | S O => b | _ => c end.

(** [u - v], [u + v], [v * k] and [v / k] on 3-element arrays. *)
Definition vsub (u v : vec3) : vec3 :=
  let '(a, b, c) := u in let '(x, y, z) := v in (a - x, b - y, c - z).

Definition vadd (u v : vec3) : vec3 :=
  let '(a, b, c) := u in let '(x, y, z) := v in (a + x, b + y, c + z).

Definition vscale (v : vec3) (k : R) : vec3 :=
  let '(a, b, c) := v in (a * k, b * k, c * k).

Definition vdiv (v : vec3) (k : R) : vec3 :=
  let '(a, b, c) := v in (a / k, b / k, c / k).

Definition vmul (u v : vec3) : vec3 :=
  let '(a, b, c) := u in let '(x, y, z) := v in (a * x, b * y, c * z).

(** [k - v] with a scalar on the left, broadcast over a 2-element array. *)
Definition scalar_sub2 (k : R) (v : vec2) : vec2 := (k - fst v, k - snd v).

Definition dot (u v : vec3) : R :=
  let '(a, b, c) := u in let '(x, y, z) := v in a * x + b * y + c * z.

Definition row (m : mat3) (i : nat) : vec3 :=
  let '(r0, r1, r2) := m in
  match i with O => r0 | S O => r1 | _ => r2 end.

Definition col (m : mat3) (j : nat) : vec3 :=
  let '(r0, r1, r2) := m in (get3 r0 j, get3 r1 j, get3 r2 j).

(** [m[i, j]] *)
Definition mget (m : mat3) (i j : nat) : R := get3 (row m i) j.

(** [a @ b] *)
Definition matmul (a b : mat3) : mat3 :=
  let line (r : vec3) : vec3 :=
    (dot r (col b 0), dot r (col b 1), dot r (col b 2)) in
  (line (row a 0), line (row a 1), line (row a 2)).

(** ** numpy and math primitives *)

(** [np.clip(x, lo, hi)] is [minimum(maximum(x, lo), hi)]. *)
Definition np_clip (x lo hi : R) : R := Rmin (Rmax x lo) hi.

(** Index of the first minimum when scanning [l] from position [i], the
    best candidate so far being [best] at index [best_i]. *)
Fixpoint argmin_from (best_i : nat) (best : R) (i : nat) (l : list R) : nat :=
  match l with
  | [] => best_i
  | x :: l' =>
      if Rlt_dec x best then argmin_from i x (S i) l'
      else argmin_from best_i best (S i) l'
  end.

(** [np.argmin(a)]: the first index of the least element; an empty array
    raises [ValueError]. *)
Definition np_argmin (a : list R) : outcome Z :=
  match a with
  | [] => Raised ValueError
  | x :: l => Returned (Z.of_nat (argmin_from 0 x 1 l))
  end.

(** [l[i]] on a Python list: a negative index counts from the end, an
    index outside [-len, len) raises [IndexError]. *)
Definition py_getitem {A : Type} (l : list A) (i : Z) : outcome A :=
  let n := Z.of_nat (length l) in
  let j := if (i <? 0)%Z then (i + n)%Z else i in
  if ((0 <=? j)%Z && (j <? n)%Z)%bool then
    match nth_error l (Z.to_nat j) with
    | Some a => Returned a
    | None => Raised IndexError
    end
  else Raised IndexError.

(** Rounding toward zero, as C's conversion used by [fmod]. *)
Definition Rtrunc (x : R) : Z :=
  if Rle_dec 0 x then Int_part x else (- Int_part (- x))%Z.

(** [math.fmod(x, y)]: [x - n*y] with [n] the quotient [x/y] rounded
    toward zero; [y = 0] raises [ValueError]. *)
Definition fmod (x y : R) : outcome R :=
  if Req_dec_T y 0 then Raised ValueError
  else Returned (x - IZR (Rtrunc (x / y)) * y).

(** ** Module constants *)

Definition DRONE_MASS_KG : R := 0.5.
Definition GRAVITY : R := -9.81.
Definition MOI : vec3 := (0.005, 0.005, 0.01).
Definition MAX_THRUST : R := 10.0.
Definition MAX_TORQUE : R := 1.0.

(** ** The controller object *)

Record NonlinearController : Type := mkController {
  z_k_p : R;
  z_k_d : R;
  z_k_i : R;
  x_k_p : R;
  x_k_d : R;
  y_k_p : R;
  y_k_d : R;
  k_p_roll : R;
  k_p_pitch : R;
  k_p_yaw : R;
  k_p_p : R;
  k_p_q : R;
  k_p_r : R;
  z_error_sum : R
}.

(** [__init__] *)
Definition init : NonlinearController :=
  let delta := 1.0 in
  let z_k_p := 64.0 in
  let x_k_p := 0.5 * 5 in
  let y_k_p := 0.5 * 5 in
  {| z_k_p := z_k_p;
     z_k_d := sqrt z_k_p * 2 * delta;
     z_k_i := 1.0;
     x_k_p := x_k_p;
     x_k_d := sqrt x_k_p * 2 * delta;
     y_k_p := y_k_p;
     y_k_d := sqrt y_k_p * 2 * delta;
     k_p_roll := 0.02;
     k_p_pitch := 0.02;
     k_p_yaw := 2.5;
     k_p_p := 0.1 * 5;
     k_p_q := 0.1 * 5;
     k_p_r := 0.04 * 5;
     z_error_sum := 0.0 |}.

(** [self.z_error_sum = v] *)
Definition set_z_error_sum (self : NonlinearController) (v : R)
  : NonlinearController :=
  {| z_k_p := z_k_p self;
     z_k_d := z_k_d self;
     z_k_i := z_k_i self;
     x_k_p := x_k_p self;
     x_k_d := x_k_d self;
     y_k_p := y_k_p self;
     y_k_d := y_k_d self;
     k_p_roll := k_p_roll self;
     k_p_pitch := k_p_pitch self;
     k_p_yaw := k_p_yaw self;
     k_p_p := k_p_p self;
     k_p_q := k_p_q self;
     k_p_r := k_p_r self;
     z_error_sum := v |}.

(** ** Methods as state-passing computations *)

Definition Method (A : Type) : Type :=
  NonlinearController -> outcome A * NonlinearController.

Definition ret {A : Type} (a : A) : Method A :=
  fun self => (Returned a, self).

Definition bind {A B : Type} (m : Method A) (k : A -> Method B) : Method B :=
  fun self =>
    match m self with
    | (Returned a, self') => k a self'
    | (Raised e, self') => (Raised e, self')
    end.

(** A primitive that reads no attribute. *)
Definition lift {A : Type} (o : outcome A) : Method A :=
  fun self => (o, self).

(** Reading an attribute of [self]. *)
Definition attr {A : Type} (f : NonlinearController -> A) : Method A :=
  fun self => (Returned (f self), self).

(** Assigning [self.z_error_sum]. *)
Definition assign_z_error_sum (v : R) : Method unit :=
  fun self => (Returned tt, set_z_error_sum self v).

Declare Scope method_scope.
Delimit Scope method_scope with method.
Notation "x <- m ;; k" := (bind m (fun x => k))
  (at level 61, m at next level, right associativity) : method_scope.
Notation "' p <- m ;; k" := (bind m (fun x => let p := x in k))
  (at level 61, p pattern, m at next level, right associativity) : method_scope.
Local Open Scope method_scope.

Definition result_of {A : Type} (r : outcome A * NonlinearController) : outcome A :=
  fst r.

Definition state_after {A : Type} (r : outcome A * NonlinearController)
  : NonlinearController :=
  snd r.

(** ** [NonlinearController.R]: the rotation matrix [Rz @ (Ry @ Rx)] *)

Definition attitude_t : Type := R * R * R.

Definition rotation_R (attitude : attitude_t) : mat3 :=
  let '(phi, theta, psi) := attitude in
  let Rx : mat3 := ((1, 0, 0),
                    (0, cos phi, - sin phi),
                    (0, sin phi, cos phi)) in
  let Ry : mat3 := ((cos theta, 0, sin theta),
                    (0, 1, 0),
                    (- sin theta, 0, cos theta)) in
  let Rz : mat3 := ((cos psi, - sin psi, 0),
                    (sin psi, cos psi, 0),
                    (0, 0, 1)) in
  matmul Rz (matmul Ry Rx).

(** ** [trajectory_control] *)

(** The endpoints chosen by the [if]/[else] of [trajectory_control]:
    [(position0, position1, time0, time1, yaw_cmd)]. *)
Definition segment : Type := vec3 * vec3 * R * R * R.

Definition select_segment (position_trajectory : list vec3)
  (yaw_trajectory time_trajectory : list R) (current_time : R)
  : Method segment :=
  ind_min <- lift (np_argmin
                     (map (fun t => Rabs (t - current_time)) time_trajectory)) ;;
  time_ref <- lift (py_getitem time_trajectory ind_min) ;;
  if Rlt_dec current_time time_ref then
    position0 <- lift (py_getitem position_trajectory (ind_min - 1)%Z) ;;
    position1 <- lift (py_getitem position_trajectory ind_min) ;;
    time0 <- lift (py_getitem time_trajectory (ind_min - 1)%Z) ;;
    time1 <- lift (py_getitem time_trajectory ind_min) ;;
    yaw_cmd <- lift (py_getitem yaw_trajectory (ind_min - 1)%Z) ;;
    ret (position0, position1, time0, time1, yaw_cmd)
  else
    yaw_cmd <- lift (py_getitem yaw_trajectory ind_min) ;;
    if (ind_min >=? Z.of_nat (length position_trajectory) - 1)%Z then
      position0 <- lift (py_getitem position_trajectory ind_min) ;;
      position1 <- lift (py_getitem position_trajectory ind_min) ;;
      ret (position0, position1, 0.0, 1.0, yaw_cmd)
    else
      position0 <- lift (py_getitem position_trajectory ind_min) ;;
      position1 <- lift (py_getitem position_trajectory (ind_min + 1)%Z) ;;
      time0 <- lift (py_getitem time_trajectory ind_min) ;;
      time1 <- lift (py_getitem time_trajectory (ind_min + 1)%Z) ;;
      ret (position0, position1, time0, time1, yaw_cmd).

(** The two closing assignments of [trajectory_control]. *)
Definition interpolate (seg : segment) (current_time : R) : vec3 * vec3 * R :=
  let '(position0, position1, time0, time1, yaw_cmd) := seg in
  let position_cmd :=
    vadd (vdiv (vscale (vsub position1 position0) (current_time - time0))
               (time1 - time0))
         position0 in
  let velocity_cmd := vdiv (vsub position1 position0) (time1 - time0) in
  (position_cmd, velocity_cmd, yaw_cmd).

Definition trajectory_control (position_trajectory : list vec3)
  (yaw_trajectory time_trajectory : list R) (current_time : R)
  : Method (vec3 * vec3 * R) :=
  seg <- select_segment position_trajectory yaw_trajectory time_trajectory
                        current_time ;;
  ret (interpolate seg current_time).

(** ** [lateral_position_control] *)

Definition lateral_position_control
  (local_position_cmd local_velocity_cmd local_position local_velocity : vec2)
  (acceleration_ff : vec2) : Method vec2 :=
  x_k_p <- attr x_k_p ;;
  x_k_d <- attr x_k_d ;;
  y_k_p <- attr y_k_p ;;
  y_k_d <- attr y_k_d ;;
  let x_c_dot_dot :=
    x_k_p * (get2 local_position_cmd 0 - get2 local_position 0)
    + x_k_d * (get2 local_velocity_cmd 0 - get2 local_velocity 0)
    + get2 acceleration_ff 0 in
  let y_c_dot_dot :=
    y_k_p * get2 (scalar_sub2 (get2 local_position_cmd 1) local_position) 1
    + y_k_d * (get2 local_velocity_cmd 1 - get2 local_velocity 1)
    + get2 acceleration_ff 1 in
  ret (x_c_dot_dot, y_c_dot_dot).

(** ** [altitude_control] *)

(** [u_bar] of [altitude_control], read after the accumulator update. *)
Definition altitude_u_bar (self : NonlinearController)
  (altitude_cmd vertical_velocity_cmd altitude vertical_velocity
     acceleration_ff : R) : R :=
  z_k_p self * (altitude_cmd - altitude)
  + z_k_d self * (vertical_velocity_cmd - vertical_velocity)
  + z_k_i self * z_error_sum self
  + acceleration_ff.

Definition altitude_control
  (altitude_cmd vertical_velocity_cmd altitude vertical_velocity : R)
  (attitude : attitude_t) (acceleration_ff : R) : Method R :=
  acc <- attr z_error_sum ;;
  _ <- assign_z_error_sum (acc + (altitude_cmd - altitude)) ;;
  u_bar <- attr (fun self =>
                   altitude_u_bar self altitude_cmd vertical_velocity_cmd
                                  altitude vertical_velocity acceleration_ff) ;;
  let rot_mat := rotation_R attitude in
  let thrust_cmd := (u_bar + GRAVITY) / mget rot_mat 2 2 in
  let thrust_cmd := np_clip thrust_cmd 0.1 (MAX_THRUST / DRONE_MASS_KG) in
  ret thrust_cmd.

(** ** [roll_pitch_controller] *)

(** The pair [(p_c, q_c)] computed by lines 153-164 of the method. *)
Definition roll_pitch_rates (self : NonlinearController)
  (acceleration_cmd : vec2) (attitude : attitude_t) (thrust_cmd : R) : R * R :=
  let rot_mat := rotation_R attitude in
  let R11 := mget rot_mat 0 0 in
  let R12 := mget rot_mat 0 1 in
  let R21 := mget rot_mat 1 0 in
  let R22 := mget rot_mat 1 1 in
  let R13 := mget rot_mat 0 2 in
  let R23 := mget rot_mat 1 2 in
  let R33 := mget rot_mat 2 2 in
  let b_x_c_dot := k_p_roll self * (get2 acceleration_cmd 0 / thrust_cmd - R13) in
  let b_y_c_dot := k_p_pitch self * (get2 acceleration_cmd 1 / thrust_cmd - R23) in
  let p_c := (R21 * b_x_c_dot - R11 * b_y_c_dot) / R33 in
  let q_c := (R22 * b_x_c_dot - R12 * b_y_c_dot) / R33 in
  (p_c, q_c).

(** The method binds [p_c] and [q_c] and then returns [np.array([0.0,0.0])]
    at line 166; the [return np.array([-p_c,-q_c])] of line 169 is never
    reached. *)
Definition roll_pitch_controller (acceleration_cmd : vec2)
  (attitude : attitude_t) (thrust_cmd : R) : Method vec2 :=
  pq <- attr (fun self =>
                roll_pitch_rates self acceleration_cmd attitude thrust_cmd) ;;
  let '(p_c, q_c) := pq in
  ret (0.0, 0.0).

(** ** [body_rate_control] *)

Definition body_rate_control (body_rate_cmd body_rate : vec3) : Method vec3 :=
  k_p_p <- attr k_p_p ;;
  k_p_q <- attr k_p_q ;;
  k_p_r <- attr k_p_r ;;
  let error_pqr := vsub body_rate_cmd body_rate in
  let control_gain : vec3 := (k_p_p, k_p_q, k_p_r) in
  let u_bar_pqr := vmul control_gain error_pqr in
  ret u_bar_pqr.

(** ** [yaw_control] *)

Definition yaw_control (yaw_cmd yaw : R) : Method R :=
  k_p_yaw <- attr k_p_yaw ;;
  rem <- lift (fmod (yaw_cmd - yaw) PI) ;;
  ret (k_p_yaw * rem).

(** ** Auxiliary definitions used by the statements *)

(** A method call that leaves every attribute of the controller as it
    found it. *)
Definition preserves_state {A : Type} (m : Method A) : Prop :=
  forall self, state_after (m self) = self.

(** All thirteen gains of two controllers agree. *)
Definition same_gains (s s' : NonlinearController) : Prop :=
  z_k_p s' = z_k_p s /\ z_k_d s' = z_k_d s /\ z_k_i s' = z_k_i s /\
  x_k_p s' = x_k_p s /\ x_k_d s' = x_k_d s /\
  y_k_p s' = y_k_p s /\ y_k_d s' = y_k_d s /\
  k_p_roll s' = k_p_roll s /\ k_p_pitch s' = k_p_pitch s /\
  k_p_yaw s' = k_p_yaw s /\
  k_p_p s' = k_p_p s /\ k_p_q s' = k_p_q s /\ k_p_r s' = k_p_r s.

(** The value of [thrust_cmd] at line 135 of [altitude_control], before
    [np.clip]: the accumulator has already received the current error. *)
Definition altitude_thrust_raw (self : NonlinearController)
  (altitude_cmd vertical_velocity_cmd altitude vertical_velocity : R)
  (attitude : attitude_t) (acceleration_ff : R) : R :=
  let self' :=
    set_z_error_sum self (z_error_sum self + (altitude_cmd - altitude)) in
  (altitude_u_bar self' altitude_cmd vertical_velocity_cmd altitude
                  vertical_velocity acceleration_ff + GRAVITY)
  / mget (rotation_R attitude) 2 2.

(** Roll and pitch rates as section 4.5 of the specification words them:
    the pair [(-p_cmd, -q_cmd)]. *)
Definition roll_pitch_spec (self : NonlinearController)
  (acceleration_cmd : vec2) (attitude : attitude_t) (thrust_cmd : R) : vec2 :=
  let Rm := rotation_R attitude in
  let b_x_dot :=
    k_p_roll self * (fst acceleration_cmd / thrust_cmd - mget Rm 0 2) in
  let b_y_dot :=
    k_p_pitch self * (snd acceleration_cmd / thrust_cmd - mget Rm 1 2) in
  let p_cmd := (mget Rm 1 0 * b_x_dot - mget Rm 0 0 * b_y_dot) / mget Rm 2 2 in
  let q_cmd := (mget Rm 1 1 * b_x_dot - mget Rm 0 1 * b_y_dot) / mget Rm 2 2 in
  (- p_cmd, - q_cmd).

(** [w] is the angle [e] wrapped into the interval (-pi, pi], in the words
    of section 4.7 of the specification: [w] lies in the interval and
    differs from [e] by a whole number of turns. *)
Definition wrapped_into_pi (e w : R) : Prop :=
  - PI < w <= PI /\ exists k : Z, w = e + IZR k * (2 * PI).

(** The waypoint-sequence invariant of section 3 of the specification:
    three aligned sequences, at least one waypoint, strictly increasing
    times. *)
Definition waypoints (position_trajectory : list vec3)
  (yaw_trajectory time_trajectory : list R) : Prop :=
  length position_trajectory = length time_trajectory /\
  length yaw_trajectory = length time_trajectory /\
  (1 <= length time_trajectory)%nat /\
  StronglySorted Rlt time_trajectory.

(** ** Further definitions used by the statements on the rotation matrix
       and on repeated ticks *)

Definition identity3 : mat3 := ((1, 0, 0), (0, 1, 0), (0, 0, 1)).

(** [m.T] *)
Definition transpose (m : mat3) : mat3 := (col m 0, col m 1, col m 2).

(** [np.linalg.det(m)] of a 3x3 array, expanded along the first row. *)
Definition det3 (m : mat3) : R :=
  mget m 0 0 * (mget m 1 1 * mget m 2 2 - mget m 1 2 * mget m 2 1)
  - mget m 0 1 * (mget m 1 0 * mget m 2 2 - mget m 1 2 * mget m 2 0)
  + mget m 0 2 * (mget m 1 0 * mget m 2 1 - mget m 1 1 * mget m 2 0).

(** The arguments of one call of [altitude_control]. *)
Record altitude_args : Type := mkAltitudeArgs {
  arg_altitude_cmd : R;
  arg_vertical_velocity_cmd : R;
  arg_altitude : R;
  arg_vertical_velocity : R;
  arg_attitude : attitude_t;
  arg_acceleration_ff : R
}.

Definition altitude_error (a : altitude_args) : R :=
  arg_altitude_cmd a - arg_altitude a.

(** Successive calls of [altitude_control] on the same controller, one per
    tick, collecting the thrust commands. *)
Fixpoint altitude_ticks (calls : list altitude_args) : Method (list R) :=
  match calls with
  | [] => ret []
  | a :: rest =>
      thrust_cmd <- altitude_control (arg_altitude_cmd a)
                      (arg_vertical_velocity_cmd a) (arg_altitude a)
                      (arg_vertical_velocity a) (arg_attitude a)
                      (arg_acceleration_ff a) ;;
      more <- altitude_ticks rest ;;
      ret (thrust_cmd :: more)
  end.

(** Sum of a list of reals. *)
Definition Rsum (l : list R) : R := fold_right Rplus 0 l.

(** ** numpy values at a zero divisor *)

(** A float64 result: a real number, or one of the three values that
    numpy produces without raising. *)
Inductive np_float : Type :=
| Finite (r : R)
| PosInf
| NegInf
| NaN.

Definition np_vec3 : Type := np_float * np_float * np_float.

Definition is_finite (x : np_float) : bool :=
  match x with Finite _ => true | _ => false end.

(** [x / d] on float64 operands with finite values [x] and [d]: a zero
    divisor gives nan for a zero dividend and otherwise inf with the sign
    of the dividend (the divisor [time1 - time0] of two equal times is
    +0.0); nothing is raised. *)
Definition np_true_divide (x d : R) : np_float :=
  if Req_dec_T d 0 then
    if Req_dec_T x 0 then NaN
    else if Rlt_dec 0 x then PosInf else NegInf
  else Finite (x / d).

(** [a + b] with [b] finite: inf and nan absorb a finite term. *)
Definition np_add_finite (a : np_float) (b : R) : np_float :=
  match a with
  | Finite r => Finite (r + b)
  | PosInf => PosInf
  | NegInf => NegInf
  | NaN => NaN
  end.

(** The two closing assignments of [trajectory_control] (lines 82-84),
    with numpy's values at a zero time interval. *)
Definition interpolate_np (seg : segment) (current_time : R)
  : np_vec3 * np_vec3 * R :=
  let '(position0, position1, time0, time1, yaw_cmd) := seg in
  let '(n1, n2, n3) :=
    vscale (vsub position1 position0) (current_time - time0) in
  let '(a0, b0, c0) := position0 in
  let position_cmd : np_vec3 :=
    (np_add_finite (np_true_divide n1 (time1 - time0)) a0,
     np_add_finite (np_true_divide n2 (time1 - time0)) b0,
     np_add_finite (np_true_divide n3 (time1 - time0)) c0) in
  let '(d1, d2, d3) := vsub position1 position0 in
  let velocity_cmd : np_vec3 :=
    (np_true_divide d1 (time1 - time0),
     np_true_divide d2 (time1 - time0),
     np_true_divide d3 (time1 - time0)) in
  (position_cmd, velocity_cmd, yaw_cmd).

(** [trajectory_control] with the values of [interpolate_np]. *)
Definition trajectory_control_np (position_trajectory : list vec3)
  (yaw_trajectory time_trajectory : list R) (current_time : R)
  : Method (np_vec3 * np_vec3 * R) :=
  seg <- select_segment position_trajectory yaw_trajectory time_trajectory
                        current_time ;;
  ret (interpolate_np seg current_time).

(** A real vector read as a float64 array. *)
Definition finite3 (v : vec3) : np_vec3 :=
  let '(a, b, c) := v in (Finite a, Finite b, Finite c).

Definition finite_cmd (cmd : vec3 * vec3 * R) : np_vec3 * np_vec3 * R :=
  let '(position_cmd, velocity_cmd, yaw_cmd) := cmd in
  (finite3 position_cmd, finite3 velocity_cmd, yaw_cmd).

(** No entry of the array is a real number. *)
Definition all_non_finite (v : np_vec3) : Prop :=
  let '(a, b, c) := v in
  is_finite a = false /\ is_finite b = false /\ is_finite c = false.

Definition nan3 : np_vec3 := (NaN, NaN, NaN).

(** * Properties *)

(** ** Generic facts on the primitives *)

Section Primitives.

Lemma np_clip_bounds (x lo hi : R) :
  lo <= hi -> lo <= np_clip x lo hi <= hi.
Proof.
  intros Hle. unfold np_clip, Rmin, Rmax.
  destruct (Rle_dec x lo); destruct (Rle_dec _ hi); lra.
Qed.

Lemma np_clip_above (x lo hi : R) :
  lo <= hi -> hi <= x -> np_clip x lo hi = hi.
Proof.
  intros Hle Hx. unfold np_clip, Rmin, Rmax.
  destruct (Rle_dec x lo); destruct (Rle_dec _ hi); lra.
Qed.

Lemma np_clip_below (x lo hi : R) :
  lo <= hi -> x <= lo -> np_clip x lo hi = lo.
Proof.
  intros Hle Hx. unfold np_clip, Rmin, Rmax.
  destruct (Rle_dec x lo); destruct (Rle_dec _ hi); lra.
Qed.

Lemma np_clip_inside (x lo hi : R) :
  lo <= x <= hi -> np_clip x lo hi = x.
Proof.
  intros Hx. unfold np_clip, Rmin, Rmax.
  destruct (Rle_dec x lo); destruct (Rle_dec _ hi); lra.
Qed.

Lemma thrust_bounds_ordered : 0.1 <= MAX_THRUST / DRONE_MASS_KG.
Proof. unfold MAX_THRUST, DRONE_MASS_KG. lra. Qed.

Lemma max_thrust_per_mass : MAX_THRUST / DRONE_MASS_KG = 20.
Proof. unfold MAX_THRUST, DRONE_MASS_KG. lra. Qed.

(** The entry [R[2][2]] of the rotation matrix. *)
Lemma rotation_R_22 (phi theta psi : R) :
  mget (rotation_R (phi, theta, psi)) 2 2 = cos theta * cos phi.
Proof. unfold rotation_R, mget, matmul, row, col, dot, get3. ring. Qed.

(** Attitude [(0,0,0)] gives the identity matrix. *)
Lemma rotation_R_zero :
  rotation_R (0, 0, 0) = ((1, 0, 0), (0, 1, 0), (0, 0, 1)).
Proof.
  unfold rotation_R, matmul, row, col, dot, get3.
  rewrite cos_0, sin_0.
  repeat (f_equal; try ring).
Qed.

End Primitives.

(** ** State-passing lemmas *)

Section Frame.

Context {A B : Type}.

Lemma preserves_ret (a : A) : preserves_state (ret a).
Proof. intros self. reflexivity. Qed.

Lemma preserves_lift (o : outcome A) : preserves_state (lift o).
Proof. intros self. reflexivity. Qed.

Lemma preserves_attr (f : NonlinearController -> A) : preserves_state (attr f).
Proof. intros self. reflexivity. Qed.

Lemma preserves_bind (m : Method A) (k : A -> Method B) :
  preserves_state m -> (forall a, preserves_state (k a)) ->
  preserves_state (bind m k).
Proof.
  intros Hm Hk self. unfold bind, state_after.
  specialize (Hm self). unfold state_after in Hm.
  destruct (m self) as [[a | e] self']; simpl in Hm; subst self'.
  - apply Hk.
  - reflexivity.
Qed.

End Frame.

Create HintDb frame.

#[local] Hint Resolve preserves_ret preserves_lift preserves_attr : frame.

(** Walks through a method body built from [bind], [if] and the three pure
    primitives. *)
Ltac frame_step :=
  match goal with
  | |- preserves_state (bind _ _) => apply preserves_bind; [ | intro ]
  | |- preserves_state (if ?c then _ else _) => destruct c
  | |- preserves_state (let '(_, _) := ?p in _) => destruct p
  | |- preserves_state _ => solve [ auto with frame ]
  end.

Ltac frame := repeat frame_step.

Lemma select_segment_preserves p y t c : preserves_state (select_segment p y t c).
Proof. unfold select_segment. frame. Qed.

Lemma trajectory_control_preserves p y t c :
  preserves_state (trajectory_control p y t c).
Proof.
  unfold trajectory_control. apply preserves_bind.
  - apply select_segment_preserves.
  - intro. frame.
Qed.

Lemma lateral_position_control_preserves pc vc p v ff :
  preserves_state (lateral_position_control pc vc p v ff).
Proof. unfold lateral_position_control. frame. Qed.

Lemma roll_pitch_controller_preserves acc att thrust :
  preserves_state (roll_pitch_controller acc att thrust).
Proof. unfold roll_pitch_controller. frame. Qed.

Lemma body_rate_control_preserves cmd rate :
  preserves_state (body_rate_control cmd rate).
Proof. unfold body_rate_control. frame. Qed.

Lemma yaw_control_preserves yaw_cmd yaw :
  preserves_state (yaw_control yaw_cmd yaw).
Proof. unfold yaw_control. frame. Qed.

(** The complete effect of one call of [altitude_control]. *)
Lemma altitude_control_run self altitude_cmd vvc altitude vv att ff :
  altitude_control altitude_cmd vvc altitude vv att ff self =
  (Returned (np_clip (altitude_thrust_raw self altitude_cmd vvc altitude vv att ff)
                     0.1 (MAX_THRUST / DRONE_MASS_KG)),
   set_z_error_sum self (z_error_sum self + (altitude_cmd - altitude))).
Proof. reflexivity. Qed.

(** ** Roll and pitch stage *)

(** The returned array never depends on the rates bound in the body. *)
Lemma roll_pitch_controller_run self acc att thrust :
  roll_pitch_controller acc att thrust self = (Returned (0.0, 0.0), self).
Proof.
  unfold roll_pitch_controller, bind, attr, ret.
  destruct (roll_pitch_rates self acc att thrust) as [p_c q_c].
  reflexivity.
Qed.

(** C2: for any acceleration command, any attitude and any non-zero thrust
    command, [roll_pitch_controller] returns the constant zero vector
    (0.0, 0.0): the rates it computed are discarded. *)
Theorem roll_pitch_controller_returns_zero
  (self : NonlinearController) (acceleration_cmd : vec2)
  (attitude : attitude_t) (thrust_cmd : R) :
  thrust_cmd <> 0 ->
  result_of (roll_pitch_controller acceleration_cmd attitude thrust_cmd self)
  = Returned (0.0, 0.0).
Proof.
  intros _. rewrite roll_pitch_controller_run. reflexivity.
Qed.

Lemma roll_pitch_controller_returns_zero_witness :
  (1 <> 0 :> R) /\
  result_of (roll_pitch_controller (1, 0) (0, 0, 0) 1 init) = Returned (0.0, 0.0).
Proof.
  split.
  - lra.
  - apply (roll_pitch_controller_returns_zero init (1, 0) (0, 0, 0) 1). lra.
Defined.

(** The rates of section 4.5 at a level attitude, for a unit northward
    acceleration command and unit thrust, with the default gains. *)
Lemma roll_pitch_spec_level :
  roll_pitch_spec init (1, 0) (0, 0, 0) 1 = (0, - 0.02).
Proof.
  unfold roll_pitch_spec. rewrite rotation_R_zero.
  unfold mget, row, get3, init, k_p_roll, k_p_pitch, fst, snd.
  f_equal; lra.
Qed.

(** C1: the specification asks for the pair (-p_cmd, -q_cmd); on the
    input acceleration_cmd = (1, 0), attitude = (0, 0, 0), thrust_cmd = 1
    with the default gains that pair is (0, -0.02), and the method returns
    (0.0, 0.0) instead. *)
Theorem roll_pitch_controller_misses_rates :
  result_of (roll_pitch_controller (1, 0) (0, 0, 0) 1 init) = Returned (0.0, 0.0)
  /\ roll_pitch_spec init (1, 0) (0, 0, 0) 1 = (0, - 0.02)
  /\ result_of (roll_pitch_controller (1, 0) (0, 0, 0) 1 init)
     <> Returned (roll_pitch_spec init (1, 0) (0, 0, 0) 1).
Proof.
  rewrite roll_pitch_controller_run, roll_pitch_spec_level.
  unfold result_of, fst.
  repeat split.
  intros Heq. injection Heq as _ Hq. lra.
Qed.

(** The body of the method does compute the rates of the specification,
    up to the sign applied by the unreachable [return]. *)
Lemma roll_pitch_rates_agree_with_spec self acc att thrust :
  let '(p_c, q_c) := roll_pitch_rates self acc att thrust in
  roll_pitch_spec self acc att thrust = (- p_c, - q_c).
Proof.
  unfold roll_pitch_rates, roll_pitch_spec. destruct acc as [ax ay].
  reflexivity.
Qed.

(** ** Altitude stage *)

(** The hover scenario of section 8, run on a fresh controller: the raw
    command is [GRAVITY] itself and the clamp returns its lower bound. *)
Lemma altitude_control_hover_raw :
  altitude_thrust_raw init (-5) 0 (-5) 0 (0, 0, 0) 0.0 = GRAVITY.
Proof.
  unfold altitude_thrust_raw. rewrite rotation_R_zero.
  unfold altitude_u_bar, set_z_error_sum, init, GRAVITY, mget, row, get3.
  cbv [z_k_p z_k_d z_k_i z_error_sum]. lra.
Qed.

Lemma altitude_control_hover_run :
  result_of (altitude_control (-5) 0 (-5) 0 (0, 0, 0) 0.0 init) = Returned 0.1.
Proof.
  rewrite altitude_control_run, altitude_control_hover_raw.
  unfold result_of, fst. f_equal. apply np_clip_below.
  - apply thrust_bounds_ordered.
  - unfold GRAVITY. lra.
Qed.

(** C3: a freshly constructed controller called with altitude_cmd = -5,
    altitude = -5, zero velocities, zero attitude and zero feedforward
    returns 0.1: the raw command (0 + GRAVITY)/1.0 = -9.81 lies below the
    clamp range [0.1, MAX_THRUST/DRONE_MASS_KG] and is brought to its lower
    bound. *)
Theorem altitude_control_hover_thrust :
  altitude_thrust_raw init (-5) 0 (-5) 0 (0, 0, 0) 0.0 = (0 + GRAVITY) / 1.0
  /\ (0 + GRAVITY) / 1.0 < 0.1
  /\ result_of (altitude_control (-5) 0 (-5) 0 (0, 0, 0) 0.0 init)
     = Returned 0.1.
Proof.
  rewrite altitude_control_hover_raw, altitude_control_hover_run.
  unfold GRAVITY. repeat split; lra.
Qed.

(** C3, as stated, fails: the thrust returned in the hover scenario is not
    the magnitude of GRAVITY. *)
Lemma altitude_control_hover_not_gravity :
  result_of (altitude_control (-5) 0 (-5) 0 (0, 0, 0) 0.0 init)
  <> Returned (Rabs GRAVITY).
Proof.
  rewrite altitude_control_hover_run.
  intros Heq. injection Heq as Heq.
  unfold GRAVITY in Heq. rewrite Rabs_left in Heq by lra. lra.
Qed.

(** The raw command is affine in the feedforward term. *)
Lemma altitude_thrust_raw_ff self altitude_cmd vvc altitude vv att ff :
  mget (rotation_R att) 2 2 <> 0 ->
  altitude_thrust_raw self altitude_cmd vvc altitude vv att ff =
  (altitude_thrust_raw self altitude_cmd vvc altitude vv att 0
   * mget (rotation_R att) 2 2 + ff) / mget (rotation_R att) 2 2.
Proof.
  unfold altitude_thrust_raw, altitude_u_bar.
  set (r := mget (rotation_R att) 2 2).
  set (g := GRAVITY).
  cbv [z_k_p z_k_d z_k_i z_error_sum set_z_error_sum].
  intros Hr. field. exact Hr.
Qed.

Lemma Rdiv_ge_of_mul (x r c : R) : 0 < r -> c * r <= x -> c <= x / r.
Proof.
  intros Hr Hx. apply Rmult_le_reg_r with r; [exact Hr | ].
  unfold Rdiv. rewrite Rmult_assoc, Rinv_l by lra. lra.
Qed.

Lemma Rdiv_le_of_mul (x r c : R) : 0 < r -> x <= c * r -> x / r <= c.
Proof.
  intros Hr Hx. apply Rmult_le_reg_r with r; [exact Hr | ].
  unfold Rdiv. rewrite Rmult_assoc, Rinv_l by lra. lra.
Qed.

(** With the vehicle upright ([R[2][2] > 0]) a large enough feedforward
    pushes the raw command above any level, and a negative enough one
    below any level. *)
Lemma altitude_thrust_raw_unbounded self altitude_cmd vvc altitude vv att level :
  0 < mget (rotation_R att) 2 2 ->
  exists hi lo : R,
    (forall ff, hi <= ff ->
       level <= altitude_thrust_raw self altitude_cmd vvc altitude vv att ff)
    /\ (forall ff, ff <= lo ->
       altitude_thrust_raw self altitude_cmd vvc altitude vv att ff <= level).
Proof.
  intros Hr.
  set (r := mget (rotation_R att) 2 2) in *.
  set (base := altitude_thrust_raw self altitude_cmd vvc altitude vv att 0 * r).
  exists (level * r - base), (level * r - base).
  split; intros ff Hff;
    rewrite altitude_thrust_raw_ff by (fold r; lra); fold r; fold base.
  - apply Rdiv_ge_of_mul; lra.
  - apply Rdiv_le_of_mul; lra.
Qed.

(** The clamp alone: whatever the arguments and the accumulated integral
    state, the thrust returned by [altitude_control] lies in the closed
    interval [0.1, MAX_THRUST/DRONE_MASS_KG]; a raw command at or above
    the upper bound is returned as the upper bound, and one at or below
    0.1 as 0.1. *)
Theorem altitude_control_thrust_clamped
  (self : NonlinearController)
  (altitude_cmd vertical_velocity_cmd altitude vertical_velocity : R)
  (attitude : attitude_t) (acceleration_ff : R) :
  exists thrust_cmd : R,
    result_of (altitude_control altitude_cmd vertical_velocity_cmd altitude
                                vertical_velocity attitude acceleration_ff self)
    = Returned thrust_cmd
    /\ 0.1 <= thrust_cmd <= MAX_THRUST / DRONE_MASS_KG
    /\ (MAX_THRUST / DRONE_MASS_KG
        <= altitude_thrust_raw self altitude_cmd vertical_velocity_cmd altitude
                               vertical_velocity attitude acceleration_ff ->
        thrust_cmd = MAX_THRUST / DRONE_MASS_KG)
    /\ (altitude_thrust_raw self altitude_cmd vertical_velocity_cmd altitude
                            vertical_velocity attitude acceleration_ff <= 0.1 ->
        thrust_cmd = 0.1).
Proof.
  rewrite altitude_control_run. unfold result_of, fst.
  eexists. split; [reflexivity | ].
  pose proof thrust_bounds_ordered as Hb.
  repeat split.
  - apply np_clip_bounds; exact Hb.
  - apply np_clip_bounds; exact Hb.
  - intros Hhi. apply np_clip_above; assumption.
  - intros Hlo. apply np_clip_below; assumption.
Qed.

(** Both saturations are reached: with an upright vehicle, every large
    enough feedforward acceleration returns the upper bound and every
    negative enough one returns 0.1. *)
Lemma altitude_control_saturates self altitude_cmd vvc altitude vv att :
  0 < mget (rotation_R att) 2 2 ->
  exists hi lo : R,
    (forall ff, hi <= ff ->
       result_of (altitude_control altitude_cmd vvc altitude vv att ff self)
       = Returned (MAX_THRUST / DRONE_MASS_KG))
    /\ (forall ff, ff <= lo ->
       result_of (altitude_control altitude_cmd vvc altitude vv att ff self)
       = Returned 0.1).
Proof.
  intros Hr.
  destruct (altitude_thrust_raw_unbounded self altitude_cmd vvc altitude vv att
              (MAX_THRUST / DRONE_MASS_KG) Hr) as (hi & _ & Hhi & _).
  destruct (altitude_thrust_raw_unbounded self altitude_cmd vvc altitude vv att
              0.1 Hr) as (_ & lo & _ & Hlo).
  pose proof thrust_bounds_ordered as Hb.
  exists hi, lo. split; intros ff Hff; rewrite altitude_control_run;
    unfold result_of, fst; f_equal.
  - apply np_clip_above; auto.
  - apply np_clip_below; auto.
Qed.

(** The raw command written over the arguments and the attributes. *)
Lemma altitude_thrust_raw_expanded self altitude_cmd vvc altitude vv att ff :
  altitude_thrust_raw self altitude_cmd vvc altitude vv att ff =
  (z_k_p self * (altitude_cmd - altitude) + z_k_d self * (vvc - vv)
   + z_k_i self * (z_error_sum self + (altitude_cmd - altitude)) + ff
   + GRAVITY)
  / mget (rotation_R att) 2 2.
Proof. reflexivity. Qed.

Lemma Rdiv_le_of_mul_neg (x r c : R) : r < 0 -> c * r <= x -> x / r <= c.
Proof.
  intros Hr Hx. apply Rmult_le_reg_r with (- r); [lra | ].
  replace (x / r * - r) with (- x) by (field; lra). lra.
Qed.

Lemma Rdiv_ge_of_mul_neg (x r c : R) : r < 0 -> x <= c * r -> c <= x / r.
Proof.
  intros Hr Hx. apply Rmult_le_reg_r with (- r); [lra | ].
  replace (x / r * - r) with (- x) by (field; lra). lra.
Qed.

(** C6: whatever the arguments and the accumulated integral state, the
    thrust returned by [altitude_control] lies in the closed interval
    [0.1, MAX_THRUST/DRONE_MASS_KG].  With the vehicle upright
    ([R[2][2] > 0]) a commanded acceleration [u_bar] with
    [u_bar + GRAVITY >= (MAX_THRUST/DRONE_MASS_KG) * R[2][2]] returns the
    upper bound and one with [u_bar + GRAVITY <= 0.1 * R[2][2]] returns
    0.1; with the vehicle inverted ([R[2][2] < 0]) the two saturations
    swap.  [u_bar] is the PID sum read after the accumulator update. *)
Theorem altitude_control_clamp_by_command
  (self : NonlinearController)
  (altitude_cmd vertical_velocity_cmd altitude vertical_velocity : R)
  (attitude : attitude_t) (acceleration_ff : R) :
  let r := mget (rotation_R attitude) 2 2 in
  let u_bar :=
    z_k_p self * (altitude_cmd - altitude)
    + z_k_d self * (vertical_velocity_cmd - vertical_velocity)
    + z_k_i self * (z_error_sum self + (altitude_cmd - altitude))
    + acceleration_ff in
  let top := MAX_THRUST / DRONE_MASS_KG in
  exists thrust_cmd : R,
    result_of (altitude_control altitude_cmd vertical_velocity_cmd altitude
                                vertical_velocity attitude acceleration_ff self)
    = Returned thrust_cmd
    /\ 0.1 <= thrust_cmd <= top
    /\ (0 < r ->
        (top * r <= u_bar + GRAVITY -> thrust_cmd = top)
        /\ (u_bar + GRAVITY <= 0.1 * r -> thrust_cmd = 0.1))
    /\ (r < 0 ->
        (u_bar + GRAVITY <= top * r -> thrust_cmd = top)
        /\ (0.1 * r <= u_bar + GRAVITY -> thrust_cmd = 0.1)).
Proof.
  intros r u_bar top.
  rewrite altitude_control_run, altitude_thrust_raw_expanded.
  fold r. fold u_bar. fold top. unfold result_of, fst.
  pose proof thrust_bounds_ordered as Hb. fold top in Hb.
  eexists. split; [reflexivity | ].
  split; [apply np_clip_bounds; exact Hb | ].
  split; intros Hr; split; intros Hu.
  - apply np_clip_above; [exact Hb | ]. apply Rdiv_ge_of_mul; assumption.
  - apply np_clip_below; [exact Hb | ]. apply Rdiv_le_of_mul; assumption.
  - apply np_clip_above; [exact Hb | ]. apply Rdiv_ge_of_mul_neg; assumption.
  - apply np_clip_below; [exact Hb | ]. apply Rdiv_le_of_mul_neg; assumption.
Qed.

Lemma level_attitude_R22 : mget (rotation_R (0, 0, 0)) 2 2 = 1.
Proof. rewrite rotation_R_22, cos_0. ring. Qed.

Lemma inverted_attitude_R22 : mget (rotation_R (PI, 0, 0)) 2 2 = -1.
Proof. rewrite rotation_R_22, cos_0, cos_PI. ring. Qed.

(** The fresh controller at zero error: upright, a feedforward of 100
    returns the upper bound and one of -100 returns 0.1; rolled over by
    pi, the feedforward of 100 returns 0.1 and the one of -100 the upper
    bound. *)
Lemma altitude_control_clamp_by_command_witness :
  result_of (altitude_control 0 0 0 0 (0, 0, 0) 100 init)
  = Returned (MAX_THRUST / DRONE_MASS_KG)
  /\ result_of (altitude_control 0 0 0 0 (0, 0, 0) (-100) init) = Returned 0.1
  /\ result_of (altitude_control 0 0 0 0 (PI, 0, 0) 100 init) = Returned 0.1
  /\ result_of (altitude_control 0 0 0 0 (PI, 0, 0) (-100) init)
     = Returned (MAX_THRUST / DRONE_MASS_KG).
Proof.
  pose proof level_attitude_R22 as Hup.
  pose proof inverted_attitude_R22 as Hdown.
  repeat split.
  - destruct (altitude_control_clamp_by_command init 0 0 0 0 (0, 0, 0) 100)
      as (thrust & Hres & _ & Hupright & _).
    rewrite Hres. f_equal. apply Hupright; rewrite Hup; [lra | ].
    cbv [init z_k_p z_k_d z_k_i z_error_sum MAX_THRUST DRONE_MASS_KG GRAVITY].
    lra.
  - destruct (altitude_control_clamp_by_command init 0 0 0 0 (0, 0, 0) (-100))
      as (thrust & Hres & _ & Hupright & _).
    rewrite Hres. f_equal. apply Hupright; rewrite Hup; [lra | ].
    cbv [init z_k_p z_k_d z_k_i z_error_sum MAX_THRUST DRONE_MASS_KG GRAVITY].
    lra.
  - destruct (altitude_control_clamp_by_command init 0 0 0 0 (PI, 0, 0) 100)
      as (thrust & Hres & _ & _ & Hinverted).
    rewrite Hres. f_equal. apply Hinverted; rewrite Hdown; [lra | ].
    cbv [init z_k_p z_k_d z_k_i z_error_sum MAX_THRUST DRONE_MASS_KG GRAVITY].
    lra.
  - destruct (altitude_control_clamp_by_command init 0 0 0 0 (PI, 0, 0) (-100))
      as (thrust & Hres & _ & _ & Hinverted).
    rewrite Hres. f_equal. apply Hinverted; rewrite Hdown; [lra | ].
    cbv [init z_k_p z_k_d z_k_i z_error_sum MAX_THRUST DRONE_MASS_KG GRAVITY].
    lra.
Defined.

(** C6, as stated, fails: with the fresh controller at zero error and the
    vehicle rolled over by pi, the commanded acceleration [u_bar] is the
    feedforward itself, and every feedforward of 10 or more, however
    large, returns 0.1, which is not the upper bound. *)
Lemma altitude_control_inverted_large_command :
  (forall ff : R, 10 <= ff ->
     altitude_u_bar (set_z_error_sum init (z_error_sum init + (0 - 0)))
                    0 0 0 0 ff = ff
     /\ result_of (altitude_control 0 0 0 0 (PI, 0, 0) ff init) = Returned 0.1)
  /\ 0.1 <> MAX_THRUST / DRONE_MASS_KG.
Proof.
  split.
  - intros ff Hff. split.
    + unfold altitude_u_bar.
      cbv [init set_z_error_sum z_k_p z_k_d z_k_i z_error_sum]. lra.
    + rewrite altitude_control_run, altitude_thrust_raw_expanded.
      rewrite inverted_attitude_R22. unfold result_of, fst. f_equal.
      apply np_clip_below; [apply thrust_bounds_ordered | ].
      cbv [init z_k_p z_k_d z_k_i z_error_sum GRAVITY]. lra.
  - unfold MAX_THRUST, DRONE_MASS_KG. lra.
Qed.

(** C8: every call of [altitude_control] adds exactly
    (altitude_cmd - altitude) to [z_error_sum], whatever the other
    arguments (the method takes no time step); hence after two successive
    calls with the same strictly positive altitude error the accumulator
    is strictly larger after each call. *)
Theorem altitude_control_accumulates
  (self : NonlinearController)
  (altitude_cmd vertical_velocity_cmd altitude vertical_velocity : R)
  (attitude : attitude_t) (acceleration_ff : R) :
  let after1 :=
    state_after (altitude_control altitude_cmd vertical_velocity_cmd altitude
                   vertical_velocity attitude acceleration_ff self) in
  z_error_sum after1 = z_error_sum self + (altitude_cmd - altitude)
  /\ forall altitude_cmd' vertical_velocity_cmd' altitude' vertical_velocity'
            attitude' acceleration_ff',
       altitude_cmd' - altitude' = altitude_cmd - altitude ->
       0 < altitude_cmd - altitude ->
       let after2 :=
         state_after (altitude_control altitude_cmd' vertical_velocity_cmd'
                        altitude' vertical_velocity' attitude'
                        acceleration_ff' after1) in
       z_error_sum self < z_error_sum after1
       /\ z_error_sum after1 < z_error_sum after2
       /\ z_error_sum after2 = z_error_sum self + 2 * (altitude_cmd - altitude).
Proof.
  intros after1. subst after1. rewrite altitude_control_run.
  unfold state_after, snd. split.
  - reflexivity.
  - intros c' vc' a' v' att' ff' Hsame Hpos. cbv zeta.
    rewrite altitude_control_run. cbv [snd z_error_sum set_z_error_sum].
    destruct self; cbv [z_error_sum]. repeat split; lra.
Qed.

(** ** Frame: which calls touch the controller *)

(** C9: [trajectory_control], [lateral_position_control],
    [roll_pitch_controller], [body_rate_control] and [yaw_control] leave
    every field of the controller unchanged; [altitude_control] changes
    [z_error_sum] only, keeps every gain, and does change the controller
    on some call. *)
Theorem only_altitude_control_mutates :
  (forall p y t c, preserves_state (trajectory_control p y t c))
  /\ (forall pc vc p v ff, preserves_state (lateral_position_control pc vc p v ff))
  /\ (forall acc att thrust, preserves_state (roll_pitch_controller acc att thrust))
  /\ (forall cmd rate, preserves_state (body_rate_control cmd rate))
  /\ (forall yaw_cmd yaw, preserves_state (yaw_control yaw_cmd yaw))
  /\ (forall self altitude_cmd vvc altitude vv att ff,
        let self' :=
          state_after (altitude_control altitude_cmd vvc altitude vv att ff self) in
        same_gains self self'
        /\ self' = set_z_error_sum self
                     (z_error_sum self + (altitude_cmd - altitude)))
  /\ ~ preserves_state (altitude_control 1 0 0 0 (0, 0, 0) 0).
Proof.
  split; [exact trajectory_control_preserves | ].
  split; [exact lateral_position_control_preserves | ].
  split; [exact roll_pitch_controller_preserves | ].
  split; [exact body_rate_control_preserves | ].
  split; [exact yaw_control_preserves | ].
  split.
  - intros self altitude_cmd vvc altitude vv att ff self'. subst self'.
    rewrite altitude_control_run. unfold state_after, snd. split.
    + unfold same_gains, set_z_error_sum. cbn. repeat split.
    + reflexivity.
  - intros Hp. specialize (Hp init). rewrite altitude_control_run in Hp.
    unfold state_after, snd in Hp.
    apply (f_equal z_error_sum) in Hp.
    cbv [z_error_sum set_z_error_sum init] in Hp. lra.
Qed.

(** ** Lateral and body-rate stages *)

Lemma lateral_position_control_run self pc vc p v ff :
  lateral_position_control pc vc p v ff self =
  (Returned (x_k_p self * (fst pc - fst p) + x_k_d self * (fst vc - fst v) + fst ff,
             y_k_p self * (snd pc - snd p) + y_k_d self * (snd vc - snd v) + snd ff),
   self).
Proof. reflexivity. Qed.

(** No position error, no velocity error and no feedforward give a zero
    acceleration command, whatever the gains. *)
Lemma lateral_position_control_zero_error self p v :
  result_of (lateral_position_control p v p v (0, 0) self) = Returned (0, 0).
Proof.
  rewrite lateral_position_control_run. unfold result_of, fst.
  destruct p as [px py], v as [vx vy]. cbn [fst snd].
  f_equal. f_equal; ring.
Qed.

Lemma body_rate_control_run self cmd rate :
  body_rate_control cmd rate self =
  (Returned (vmul (k_p_p self, k_p_q self, k_p_r self) (vsub cmd rate)), self).
Proof. reflexivity. Qed.

(** The moment command scales with the rate error. *)
Lemma body_rate_control_linear self (k : R) (cmd rate cmd' rate' : vec3) :
  vsub cmd' rate' = vscale (vsub cmd rate) k ->
  forall m, result_of (body_rate_control cmd rate self) = Returned m ->
  result_of (body_rate_control cmd' rate' self) = Returned (vscale m k).
Proof.
  intros Herr m. rewrite !body_rate_control_run. unfold result_of, fst.
  intros Hm. injection Hm as Hm. subst m. rewrite Herr. f_equal.
  destruct (vsub cmd rate) as [[a b] c]. unfold vmul, vscale.
  f_equal; [f_equal | ]; ring.
Qed.

(** ** Yaw stage *)

Section Remainder.

Lemma Rtrunc_nonneg (x : R) :
  0 <= x -> IZR (Rtrunc x) <= x < IZR (Rtrunc x) + 1.
Proof.
  intros Hx. unfold Rtrunc. destruct (Rle_dec 0 x) as [_ | Hn]; [ | lra].
  destruct (base_Int_part x). lra.
Qed.

Lemma Rtrunc_neg (x : R) :
  x < 0 -> IZR (Rtrunc x) - 1 < x <= IZR (Rtrunc x).
Proof.
  intros Hx. unfold Rtrunc. destruct (Rle_dec 0 x) as [Hp | _]; [lra | ].
  rewrite opp_IZR. destruct (base_Int_part (- x)). lra.
Qed.

Lemma Rtrunc_small (x : R) : -1 < x < 1 -> Rtrunc x = 0%Z.
Proof.
  intros [Hlo Hhi]. destruct (Rle_dec 0 x) as [Hp | Hn].
  - destruct (Rtrunc_nonneg x Hp) as [H1 H2].
    apply eq_IZR. apply Rle_antisym.
    + apply IZR_le. apply Z.lt_succ_r. apply lt_IZR.
      change (Z.succ 0) with 1%Z. lra.
    + apply IZR_le. apply Z.lt_succ_r. apply lt_IZR.
      rewrite succ_IZR. lra.
  - assert (Hx : x < 0) by lra.
    destruct (Rtrunc_neg x Hx) as [H1 H2].
    apply eq_IZR. apply Rle_antisym.
    + apply IZR_le. apply Z.lt_succ_r. apply lt_IZR.
      change (Z.succ 0) with 1%Z. lra.
    + apply IZR_le. apply Z.lt_succ_r. apply lt_IZR.
      rewrite succ_IZR. lra.
Qed.

Lemma Rtrunc_IZR (z : Z) : Rtrunc (IZR z) = z.
Proof.
  unfold Rtrunc. destruct (Rle_dec 0 (IZR z)) as [Hp | Hn].
  - symmetry. apply Int_part_spec. lra.
  - rewrite <- opp_IZR.
    replace (Int_part (IZR (- z))) with (- z)%Z.
    + lia.
    + apply Int_part_spec. lra.
Qed.

(** On a non-zero modulus [fmod] returns, and its value is the dividend
    less a whole multiple of the modulus. *)
Lemma fmod_returns (x y : R) :
  y <> 0 -> fmod x y = Returned (x - IZR (Rtrunc (x / y)) * y).
Proof.
  intros Hy. unfold fmod. destruct (Req_dec_T y 0); [contradiction | reflexivity].
Qed.

Lemma quotient_nonneg (x y : R) : 0 < y -> 0 <= x -> 0 <= x / y.
Proof.
  intros Hy Hx. unfold Rdiv. apply Rmult_le_pos; [exact Hx | ].
  left. apply Rinv_0_lt_compat. exact Hy.
Qed.

Lemma quotient_neg (x y : R) : 0 < y -> x < 0 -> x / y < 0.
Proof.
  intros Hy Hx. unfold Rdiv.
  assert (Hi : 0 < / y) by (apply Rinv_0_lt_compat; exact Hy).
  replace 0 with (0 * / y) by ring.
  apply Rmult_lt_compat_r; assumption.
Qed.

(** The remainder of a non-negative dividend lies in [0, y). *)
Lemma fmod_value_nonneg (x y : R) :
  0 < y -> 0 <= x -> 0 <= x - IZR (Rtrunc (x / y)) * y < y.
Proof.
  intros Hy Hx.
  destruct (Rtrunc_nonneg (x / y) (quotient_nonneg x y Hy Hx)) as [H1 H2].
  set (n := IZR (Rtrunc (x / y))) in *.
  assert (Hx' : x = x / y * y) by (field; lra).
  split.
  - assert (n * y <= x / y * y) by (apply Rmult_le_compat_r; lra). lra.
  - assert (x / y * y < (n + 1) * y) by (apply Rmult_lt_compat_r; lra). lra.
Qed.

(** The remainder of a negative dividend lies in (-y, 0]. *)
Lemma fmod_value_neg (x y : R) :
  0 < y -> x < 0 -> - y < x - IZR (Rtrunc (x / y)) * y <= 0.
Proof.
  intros Hy Hx.
  destruct (Rtrunc_neg (x / y) (quotient_neg x y Hy Hx)) as [H1 H2].
  set (n := IZR (Rtrunc (x / y))) in *.
  assert (Hx' : x = x / y * y) by (field; lra).
  split.
  - assert ((n - 1) * y < x / y * y) by (apply Rmult_lt_compat_r; lra). lra.
  - assert (x / y * y <= n * y) by (apply Rmult_le_compat_r; lra). lra.
Qed.

(** A dividend smaller than the modulus is its own remainder. *)
Lemma fmod_value_small (x y : R) :
  0 < y -> Rabs x < y -> x - IZR (Rtrunc (x / y)) * y = x.
Proof.
  intros Hy Hx. rewrite Rtrunc_small; [lra | ].
  apply Rabs_def2 in Hx. destruct Hx as [Hhi Hlo].
  split.
  - apply Rmult_lt_reg_r with y; [exact Hy | ].
    unfold Rdiv. rewrite Rmult_assoc, Rinv_l by lra. lra.
  - apply Rmult_lt_reg_r with y; [exact Hy | ].
    unfold Rdiv. rewrite Rmult_assoc, Rinv_l by lra. lra.
Qed.

(** A dividend equal to plus or minus the modulus has remainder zero. *)
Lemma fmod_value_whole (x y : R) :
  0 < y -> Rabs x = y -> x - IZR (Rtrunc (x / y)) * y = 0.
Proof.
  intros Hy Hx. unfold Rabs in Hx. destruct (Rcase_abs x) as [Hn | Hp].
  - replace (x / y) with (IZR (-1)) by (field_simplify_eq; lra).
    rewrite Rtrunc_IZR. lra.
  - replace (x / y) with (IZR 1) by (field_simplify_eq; lra).
    rewrite Rtrunc_IZR. lra.
Qed.

End Remainder.

Lemma yaw_control_run self yaw_cmd yaw :
  yaw_control yaw_cmd yaw self =
  (Returned (k_p_yaw self
             * (yaw_cmd - yaw - IZR (Rtrunc ((yaw_cmd - yaw) / PI)) * PI)),
   self).
Proof.
  unfold yaw_control, bind, attr, lift, ret.
  rewrite fmod_returns by (pose proof PI_RGT_0; lra).
  reflexivity.
Qed.

(** C4: [yaw_control] returns [k_p_yaw] times [fmod(yaw_cmd - yaw, pi)],
    the remainder of the yaw error by pi with the quotient rounded toward
    zero: it differs from the error by a whole multiple of pi, lies in
    the open interval (-pi, pi), has the sign of the error, equals the
    error when the error is smaller than pi in magnitude, and is 0 for
    errors of +pi and -pi alike. *)
Theorem yaw_control_remainder_by_pi
  (self : NonlinearController) (yaw_cmd yaw : R) :
  exists rem : R,
    fmod (yaw_cmd - yaw) PI = Returned rem
    /\ result_of (yaw_control yaw_cmd yaw self) = Returned (k_p_yaw self * rem)
    /\ (exists n : Z, rem = yaw_cmd - yaw - IZR n * PI)
    /\ - PI < rem < PI
    /\ (0 <= yaw_cmd - yaw -> 0 <= rem)
    /\ (yaw_cmd - yaw <= 0 -> rem <= 0)
    /\ (Rabs (yaw_cmd - yaw) < PI -> rem = yaw_cmd - yaw)
    /\ (Rabs (yaw_cmd - yaw) = PI -> rem = 0).
Proof.
  pose proof PI_RGT_0 as Hpi.
  set (e := yaw_cmd - yaw).
  exists (e - IZR (Rtrunc (e / PI)) * PI).
  split; [apply fmod_returns; lra | ].
  split; [rewrite yaw_control_run; reflexivity | ].
  split; [eexists; reflexivity | ].
  assert (Hcases : 0 <= e \/ e < 0) by (destruct (Rle_dec 0 e); lra).
  split; [ | split; [ | split; [ | split]]].
  - destruct Hcases as [Hp | Hn].
    + pose proof (fmod_value_nonneg e PI Hpi Hp). lra.
    + pose proof (fmod_value_neg e PI Hpi Hn). lra.
  - intros Hp. pose proof (fmod_value_nonneg e PI Hpi Hp). lra.
  - intros Hle. destruct Hcases as [Hp | Hn].
    + assert (He : e = 0) by lra. rewrite He.
      rewrite fmod_value_small; [lra | exact Hpi | rewrite Rabs_R0; exact Hpi].
    + pose proof (fmod_value_neg e PI Hpi Hn). lra.
  - intros Hsmall. apply fmod_value_small; assumption.
  - intros Hwhole. apply fmod_value_whole; assumption.
Qed.

(** C4, as stated, fails: for yaw_cmd = pi and yaw = 0 the error pi is
    already in (-pi, pi], so its wrapped value is pi, yet the method
    returns [k_p_yaw * 0]. *)
Lemma yaw_control_not_wrapped :
  result_of (yaw_control PI 0 init) = Returned 0
  /\ ~ exists w : R,
         wrapped_into_pi (PI - 0) w
         /\ result_of (yaw_control PI 0 init) = Returned (k_p_yaw init * w).
Proof.
  pose proof PI_RGT_0 as Hpi.
  assert (Hrun : result_of (yaw_control PI 0 init) = Returned 0).
  { rewrite yaw_control_run. unfold result_of, fst. f_equal.
    rewrite fmod_value_whole; [ring | exact Hpi | ].
    rewrite Rminus_0_r. apply Rabs_right. lra. }
  split; [exact Hrun | ].
  intros (w & (_ & k & Hk) & Hres).
  rewrite Hrun in Hres. injection Hres as Hres.
  cbv [k_p_yaw init] in Hres.
  assert (Hw : w = 0) by lra. subst w.
  assert (Hz : IZR (1 + 2 * k) = 0).
  { rewrite plus_IZR, mult_IZR.
    apply Rmult_eq_reg_r with PI; [ | lra]. lra. }
  apply eq_IZR in Hz. lia.
Qed.

(** ** Trajectory stage *)

Section Indexing.

Context {A : Type}.

Lemma nth_length_pred (l : list A) (d : A) :
  l <> [] -> nth (length l - 1) l d = last l d.
Proof.
  induction l as [ | a l IH]; intros Hne; [contradiction | ].
  destruct l as [ | b l]; [reflexivity | ].
  replace (length (a :: b :: l) - 1)%nat with (S (length (b :: l) - 1))
    by (cbn [length]; lia).
  change (last (a :: b :: l) d) with (last (b :: l) d).
  rewrite <- IH by discriminate. reflexivity.
Qed.

(** A non-negative index below the length selects that element. *)
Lemma py_getitem_nat (l : list A) (i : nat) (d : A) :
  (i < length l)%nat -> py_getitem l (Z.of_nat i) = Returned (nth i l d).
Proof.
  intros Hi. unfold py_getitem.
  replace (Z.of_nat i <? 0)%Z with false by (symmetry; apply Z.ltb_ge; lia).
  replace (0 <=? Z.of_nat i)%Z with true by (symmetry; apply Z.leb_le; lia).
  replace (Z.of_nat i <? Z.of_nat (length l))%Z with true
    by (symmetry; apply Z.ltb_lt; lia).
  cbn [andb]. rewrite Nat2Z.id, (nth_error_nth' l d Hi). reflexivity.
Qed.

(** Index [-1] selects the last element of a non-empty list. *)
Lemma py_getitem_minus_one (l : list A) (d : A) :
  l <> [] -> py_getitem l (0 - 1)%Z = Returned (last l d).
Proof.
  intros Hne.
  assert (Hlen : (1 <= length l)%nat) by (destruct l; [contradiction | cbn; lia]).
  unfold py_getitem.
  change (0 - 1 <? 0)%Z with true. cbv iota.
  replace (0 <=? 0 - 1 + Z.of_nat (length l))%Z with true
    by (symmetry; apply Z.leb_le; lia).
  replace (0 - 1 + Z.of_nat (length l) <? Z.of_nat (length l))%Z with true
    by (symmetry; apply Z.ltb_lt; lia).
  cbn [andb].
  replace (Z.to_nat (0 - 1 + Z.of_nat (length l))) with (length l - 1)%nat by lia.
  rewrite (nth_error_nth' l d) by lia.
  rewrite nth_length_pred by exact Hne. reflexivity.
Qed.

Lemma py_getitem_last (l : list A) (d : A) :
  l <> [] -> py_getitem l (Z.of_nat (length l - 1)) = Returned (last l d).
Proof.
  intros Hne.
  assert (Hlen : (1 <= length l)%nat) by (destruct l; [contradiction | cbn; lia]).
  rewrite (py_getitem_nat l (length l - 1) d) by lia.
  rewrite nth_length_pred by exact Hne. reflexivity.
Qed.

End Indexing.

Section Nearest.

(** While no later element is strictly smaller, the candidate stays. *)
Lemma argmin_from_keeps (l : list R) (best_i i : nat) (best : R) :
  Forall (fun x => best <= x) l -> argmin_from best_i best i l = best_i.
Proof.
  revert i. induction l as [ | x l IH]; intros i Hall; [reflexivity | ].
  inversion Hall as [ | ? ? Hx Hl]; subst. cbn [argmin_from].
  destruct (Rlt_dec x best) as [Hlt | _]; [lra | ]. apply IH. exact Hl.
Qed.

(** Along a strictly decreasing scan the candidate is replaced at every
    step, so the scan ends on the last index. *)
Lemma argmin_from_decreasing (l : list R) (best_i i : nat) (best : R) :
  StronglySorted Rgt (best :: l) -> l <> [] ->
  argmin_from best_i best i l = (i + length l - 1)%nat.
Proof.
  revert best_i i best. induction l as [ | x l IH]; intros best_i i best Hs Hne.
  - contradiction.
  - apply StronglySorted_inv in Hs. destruct Hs as [Hs Hall].
    inversion Hall as [ | ? ? Hx _]; subst. cbn [argmin_from].
    destruct (Rlt_dec x best) as [_ | Hn]; [ | unfold Rgt in Hx; lra].
    destruct l as [ | y l].
    + cbn. lia.
    + rewrite IH by (assumption || discriminate). cbn [length]. lia.
Qed.

Lemma np_argmin_decreasing (l : list R) :
  StronglySorted Rgt l -> l <> [] ->
  np_argmin l = Returned (Z.of_nat (length l - 1)).
Proof.
  intros Hs Hne. destruct l as [ | x l]; [contradiction | ].
  unfold np_argmin. f_equal. f_equal.
  destruct l as [ | y l]; [reflexivity | ].
  rewrite argmin_from_decreasing by (assumption || discriminate).
  cbn [length]. lia.
Qed.

(** Every element of a strictly increasing list is at most its last. *)
Lemma sorted_le_last (l : list R) (d : R) :
  StronglySorted Rlt l -> Forall (fun x => x <= last l d) l.
Proof.
  induction 1 as [ | a l Hs IH Hall]; [constructor | ].
  destruct l as [ | b l].
  - constructor; [cbn; lra | constructor].
  - change (last (a :: b :: l) d) with (last (b :: l) d).
    constructor; [ | exact IH].
    inversion Hall as [ | ? ? Hab _]; subst.
    inversion IH as [ | ? ? Hb _]; subst. lra.
Qed.

(** Distances to a query time at or after every waypoint time decrease
    strictly along strictly increasing times. *)
Lemma distances_decreasing (l : list R) (t : R) :
  StronglySorted Rlt l -> Forall (fun x => x <= t) l ->
  StronglySorted Rgt (map (fun x => Rabs (x - t)) l).
Proof.
  induction 1 as [ | a l Hs IH Hall]; intros Hle; [constructor | ].
  inversion Hle as [ | ? ? Ha Hl]; subst. cbn [map]. constructor.
  - apply IH. exact Hl.
  - apply Forall_map. rewrite Forall_forall in *.
    intros x Hx. specialize (Hall x Hx). specialize (Hl x Hx).
    unfold Rgt. rewrite !Rabs_left1 by lra. lra.
Qed.

(** The nearest waypoint to a query time at or after the last waypoint
    time is the last one. *)
Lemma nearest_is_last (times : list R) (t : R) :
  StronglySorted Rlt times -> times <> [] -> last times 0 <= t ->
  np_argmin (map (fun x => Rabs (x - t)) times)
  = Returned (Z.of_nat (length times - 1)).
Proof.
  intros Hs Hne Ht.
  rewrite np_argmin_decreasing.
  - rewrite length_map. reflexivity.
  - apply distances_decreasing; [exact Hs | ].
    pose proof (sorted_le_last times 0 Hs) as Hall.
    rewrite Forall_forall in *. intros x Hx. specialize (Hall x Hx). lra.
  - destruct times; [contradiction | discriminate].
Qed.

(** The nearest waypoint to a query time before strictly increasing
    waypoint times is the first one. *)
Lemma nearest_is_first (t0 : R) (times : list R) (t : R) :
  StronglySorted Rlt (t0 :: times) -> t < t0 ->
  np_argmin (map (fun x => Rabs (x - t)) (t0 :: times)) = Returned 0%Z.
Proof.
  intros Hs Ht. apply StronglySorted_inv in Hs. destruct Hs as [_ Hall].
  cbn [map np_argmin]. f_equal.
  rewrite argmin_from_keeps; [reflexivity | ].
  apply Forall_map. rewrite Forall_forall in *.
  intros x Hx. specialize (Hall x Hx).
  rewrite !Rabs_right by lra. lra.
Qed.

End Nearest.

(** The three branches of [select_segment], one lemma each. *)

Lemma select_segment_before pos yaws times t self i tref p0 p1 t0 y :
  np_argmin (map (fun x => Rabs (x - t)) times) = Returned i ->
  py_getitem times i = Returned tref ->
  t < tref ->
  py_getitem pos (i - 1)%Z = Returned p0 ->
  py_getitem pos i = Returned p1 ->
  py_getitem times (i - 1)%Z = Returned t0 ->
  py_getitem yaws (i - 1)%Z = Returned y ->
  select_segment pos yaws times t self = (Returned (p0, p1, t0, tref, y), self).
Proof.
  intros Hmin Href Hlt Hp0 Hp1 Ht0 Hy.
  unfold select_segment, bind, lift, ret. rewrite Hmin, Href.
  destruct (Rlt_dec t tref) as [_ | Hn]; [ | lra].
  rewrite Hp0, Hp1, Ht0, Hy. reflexivity.
Qed.

Lemma select_segment_at_end pos yaws times t self i tref p y :
  np_argmin (map (fun x => Rabs (x - t)) times) = Returned i ->
  py_getitem times i = Returned tref ->
  tref <= t ->
  py_getitem yaws i = Returned y ->
  (Z.of_nat (length pos) - 1 <= i)%Z ->
  py_getitem pos i = Returned p ->
  select_segment pos yaws times t self = (Returned (p, p, 0.0, 1.0, y), self).
Proof.
  intros Hmin Href Hge Hy Hend Hp.
  unfold select_segment, bind, lift, ret. rewrite Hmin, Href.
  destruct (Rlt_dec t tref) as [Hlt | _]; [lra | ].
  rewrite Hy.
  replace (i >=? Z.of_nat (length pos) - 1)%Z with true
    by (symmetry; apply Z.geb_le; exact Hend).
  rewrite Hp. reflexivity.
Qed.

Lemma select_segment_after pos yaws times t self i tref p0 p1 t1 y :
  np_argmin (map (fun x => Rabs (x - t)) times) = Returned i ->
  py_getitem times i = Returned tref ->
  tref <= t ->
  py_getitem yaws i = Returned y ->
  (i < Z.of_nat (length pos) - 1)%Z ->
  py_getitem pos i = Returned p0 ->
  py_getitem pos (i + 1)%Z = Returned p1 ->
  py_getitem times (i + 1)%Z = Returned t1 ->
  select_segment pos yaws times t self = (Returned (p0, p1, tref, t1, y), self).
Proof.
  intros Hmin Href Hge Hy Hin Hp0 Hp1 Ht1.
  unfold select_segment, bind, lift, ret. rewrite Hmin, Href.
  destruct (Rlt_dec t tref) as [Hlt | _]; [lra | ].
  rewrite Hy.
  replace (i >=? Z.of_nat (length pos) - 1)%Z with false
    by (symmetry; rewrite Z.geb_leb; apply Z.leb_gt; exact Hin).
  rewrite Hp0, Hp1, Ht1. reflexivity.
Qed.

(** [trajectory_control] interpolates whatever segment was selected. *)
Lemma trajectory_control_run pos yaws times t self seg self' :
  select_segment pos yaws times t self = (Returned seg, self') ->
  trajectory_control pos yaws times t self = (Returned (interpolate seg t), self').
Proof.
  intros Hsel. unfold trajectory_control, bind, ret. rewrite Hsel. reflexivity.
Qed.

(** Interpolating the synthetic segment of the last waypoint. *)
Lemma interpolate_pinned (p : vec3) (y t : R) :
  interpolate (p, p, 0.0, 1.0, y) t = (p, zero3, y).
Proof.
  destruct p as [[a b] c]. unfold interpolate, vadd, vdiv, vscale, vsub, zero3.
  unfold Rdiv. repeat f_equal; ring.
Qed.

(** C7: for aligned waypoint sequences with at least one waypoint and
    strictly increasing times, a query at the last waypoint time or later
    returns the last waypoint position as position_cmd and the zero vector
    as velocity_cmd (and the last yaw as yaw_cmd). *)
Theorem trajectory_control_pins_endpoint
  (position_trajectory : list vec3) (yaw_trajectory time_trajectory : list R)
  (current_time : R) (self : NonlinearController) :
  waypoints position_trajectory yaw_trajectory time_trajectory ->
  last time_trajectory 0 <= current_time ->
  result_of (trajectory_control position_trajectory yaw_trajectory
                                time_trajectory current_time self)
  = Returned (last position_trajectory zero3, (0, 0, 0), last yaw_trajectory 0).
Proof.
  intros (Hpos & Hyaw & Hlen & Hsorted) Hlate.
  assert (Htimes : time_trajectory <> []) by (destruct time_trajectory; [cbn in Hlen; lia | discriminate]).
  assert (Hposne : position_trajectory <> [])
    by (destruct position_trajectory; [cbn in Hpos; lia | discriminate]).
  assert (Hyawne : yaw_trajectory <> [])
    by (destruct yaw_trajectory; [cbn in Hyaw; lia | discriminate]).
  rewrite (trajectory_control_run _ _ _ _ _
             (last position_trajectory zero3, last position_trajectory zero3,
              0.0, 1.0, last yaw_trajectory 0) self).
  - rewrite interpolate_pinned. reflexivity.
  - apply select_segment_at_end
      with (i := Z.of_nat (length time_trajectory - 1))
           (tref := last time_trajectory 0).
    + apply nearest_is_last; assumption.
    + apply py_getitem_last; assumption.
    + exact Hlate.
    + rewrite <- Hyaw. apply py_getitem_last; assumption.
    + lia.
    + rewrite <- Hpos. apply py_getitem_last; assumption.
Qed.

Lemma trajectory_control_pins_endpoint_witness :
  waypoints [(0, 0, 0); (10, 0, 0)] [0; 0] [0; 10]
  /\ last [0; 10] 0 <= 12
  /\ result_of (trajectory_control [(0, 0, 0); (10, 0, 0)] [0; 0] [0; 10] 12 init)
     = Returned (last [(0, 0, 0); (10, 0, 0)] zero3, (0, 0, 0), last [0; 0] 0).
Proof.
  assert (Hw : waypoints [(0, 0, 0); (10, 0, 0)] [0; 0] [0; 10]).
  { unfold waypoints. repeat split; try (cbn; lia).
    repeat constructor. lra. }
  assert (Ht : last [0; 10] 0 <= 12) by (cbn; lra).
  split; [exact Hw | ]. split; [exact Ht | ].
  exact (trajectory_control_pins_endpoint
           [(0, 0, 0); (10, 0, 0)] [0; 0] [0; 10] 12 init Hw Ht).
Defined.

(** C10: with at least two aligned waypoints, a query time before the
    first waypoint time and nearest index 0, the segment runs from the
    last waypoint (Python index -1) to the first one, and yaw_cmd is the
    last waypoint's yaw. *)
Theorem trajectory_control_before_first_wraps
  (position_trajectory : list vec3) (yaw_trajectory time_trajectory : list R)
  (current_time : R) (self : NonlinearController) :
  length position_trajectory = length time_trajectory ->
  length yaw_trajectory = length time_trajectory ->
  (2 <= length time_trajectory)%nat ->
  current_time < nth 0 time_trajectory 0 ->
  np_argmin (map (fun x => Rabs (x - current_time)) time_trajectory)
  = Returned 0%Z ->
  let position0 := last position_trajectory zero3 in
  let position1 := nth 0 position_trajectory zero3 in
  let time0 := last time_trajectory 0 in
  let time1 := nth 0 time_trajectory 0 in
  result_of (select_segment position_trajectory yaw_trajectory time_trajectory
                            current_time self)
  = Returned (position0, position1, time0, time1, last yaw_trajectory 0)
  /\ result_of (trajectory_control position_trajectory yaw_trajectory
                                   time_trajectory current_time self)
     = Returned
         (vadd (vdiv (vscale (vsub position1 position0) (current_time - time0))
                     (time1 - time0))
               position0,
          vdiv (vsub position1 position0) (time1 - time0),
          last yaw_trajectory 0).
Proof.
  intros Hpos Hyaw Hlen Hbefore Hmin position0 position1 time0 time1.
  assert (Htimes : time_trajectory <> [])
    by (destruct time_trajectory; [cbn in Hlen; lia | discriminate]).
  assert (Hposne : position_trajectory <> [])
    by (destruct position_trajectory; [cbn in Hpos; lia | discriminate]).
  assert (Hyawne : yaw_trajectory <> [])
    by (destruct yaw_trajectory; [cbn in Hyaw; lia | discriminate]).
  assert (Hsel : select_segment position_trajectory yaw_trajectory
                   time_trajectory current_time self
                 = (Returned (position0, position1, time0, time1,
                              last yaw_trajectory 0), self)).
  { apply select_segment_before with (i := 0%Z).
    - exact Hmin.
    - apply (py_getitem_nat time_trajectory 0 0). lia.
    - exact Hbefore.
    - apply py_getitem_minus_one. exact Hposne.
    - apply (py_getitem_nat position_trajectory 0 zero3). lia.
    - apply py_getitem_minus_one. exact Htimes.
    - apply py_getitem_minus_one. exact Hyawne. }
  split.
  - rewrite Hsel. reflexivity.
  - rewrite (trajectory_control_run _ _ _ _ _ _ _ Hsel). reflexivity.
Qed.

Lemma trajectory_control_before_first_wraps_witness :
  let pos : list vec3 := [(0, 0, 0); (10, 0, 0); (10, 10, 0)] in
  let yaws := [0; 0.1; 0.3] in
  let times := [0; 10; 20] in
  length pos = length times
  /\ length yaws = length times
  /\ (2 <= length times)%nat
  /\ -1 < nth 0 times 0
  /\ np_argmin (map (fun x => Rabs (x - -1)) times) = Returned 0%Z
  /\ (result_of (select_segment pos yaws times (-1) init)
      = Returned (last pos zero3, nth 0 pos zero3, last times 0, nth 0 times 0,
                  last yaws 0)
      /\ result_of (trajectory_control pos yaws times (-1) init)
         = Returned
             (vadd (vdiv (vscale (vsub (nth 0 pos zero3) (last pos zero3))
                                 (-1 - last times 0))
                         (nth 0 times 0 - last times 0))
                   (last pos zero3),
              vdiv (vsub (nth 0 pos zero3) (last pos zero3))
                   (nth 0 times 0 - last times 0),
              last yaws 0)).
Proof.
  intros pos yaws times.
  assert (H1 : length pos = length times) by reflexivity.
  assert (H2 : length yaws = length times) by reflexivity.
  assert (H3 : (2 <= length times)%nat) by (cbn; lia).
  assert (H4 : -1 < nth 0 times 0) by (cbn; lra).
  assert (H5 : np_argmin (map (fun x => Rabs (x - -1)) times) = Returned 0%Z).
  { apply nearest_is_first; [ | lra].
    repeat constructor; lra. }
  repeat (split; [assumption | ]).
  exact (trajectory_control_before_first_wraps pos yaws times (-1) init
           H1 H2 H3 H4 H5).
Defined.

(** The same query worked out: three waypoints, queried one second before
    the first.  The command is neither the first waypoint nor a point of
    the first segment, and moves along the diagonal from the last waypoint
    to the first. *)
Example trajectory_control_before_first_values :
  result_of (trajectory_control [(0, 0, 0); (10, 0, 0); (10, 10, 0)]
                                [0; 0.1; 0.3] [0; 10; 20] (-1) init)
  = Returned ((-0.5, -0.5, 0), (0.5, 0.5, 0), 0.3).
Proof.
  rewrite (trajectory_control_run _ _ _ _ _
             ((10, 10, 0), (0, 0, 0), 20, 0, 0.3) init).
  - unfold result_of, fst, interpolate, vadd, vdiv, vscale, vsub.
    repeat f_equal; lra.
  - apply select_segment_before with (i := 0%Z).
    + apply nearest_is_first; [ | lra]. repeat constructor; lra.
    + reflexivity.
    + lra.
    + reflexivity.
    + reflexivity.
    + reflexivity.
    + reflexivity.
Qed.

(** The midpoint scenario of section 8: two waypoints ten seconds apart,
    queried half way.  Both waypoints are equally near and [np.argmin]
    keeps the first. *)
Example trajectory_control_midpoint :
  result_of (trajectory_control [(0, 0, 0); (10, 0, 0)] [0; 0] [0; 10] 5 init)
  = Returned ((5, 0, 0), (1, 0, 0), 0).
Proof.
  rewrite (trajectory_control_run _ _ _ _ _
             ((0, 0, 0), (10, 0, 0), 0, 10, 0) init).
  - unfold result_of, fst, interpolate, vadd, vdiv, vscale, vsub.
    repeat f_equal; lra.
  - apply select_segment_after with (i := 0%Z).
    + cbn [map np_argmin]. f_equal.
      rewrite argmin_from_keeps; [reflexivity | ].
      constructor; [ | constructor].
      rewrite Rabs_left by lra. rewrite Rabs_right by lra. lra.
    + reflexivity.
    + lra.
    + reflexivity.
    + cbn. lia.
    + reflexivity.
    + reflexivity.
    + reflexivity.
Qed.

(** A single waypoint queried before its time: the segment selected runs
    from the waypoint (index -1) to itself, with equal endpoint times. *)
Lemma select_segment_single_before :
  select_segment [(1, 2, 3)] [0.5] [1] 0 init
  = (Returned ((1, 2, 3), (1, 2, 3), 1, 1, 0.5), init).
Proof.
  apply select_segment_before with (i := 0%Z).
  - reflexivity.
  - reflexivity.
  - lra.
  - reflexivity.
  - reflexivity.
  - reflexivity.
  - reflexivity.
Qed.

(** The same calls with numpy's values kept. *)

Lemma trajectory_control_np_run pos yaws times t self seg self' :
  select_segment pos yaws times t self = (Returned seg, self') ->
  trajectory_control_np pos yaws times t self
  = (Returned (interpolate_np seg t), self').
Proof.
  intros Hsel. unfold trajectory_control_np, bind, ret. rewrite Hsel.
  reflexivity.
Qed.

Lemma np_true_divide_nonzero (x d : R) :
  d <> 0 -> np_true_divide x d = Finite (x / d).
Proof.
  intros Hd. unfold np_true_divide.
  destruct (Req_dec_T d 0); [contradiction | reflexivity].
Qed.

Lemma np_true_divide_zero_non_finite (x : R) :
  is_finite (np_true_divide x 0) = false.
Proof.
  unfold np_true_divide.
  destruct (Req_dec_T 0 0) as [_ | Hn]; [ | contradiction].
  destruct (Req_dec_T x 0); [reflexivity | ].
  destruct (Rlt_dec 0 x); reflexivity.
Qed.

Lemma np_true_divide_zero_nan (x : R) : x = 0 -> np_true_divide x 0 = NaN.
Proof.
  intros ->. unfold np_true_divide.
  destruct (Req_dec_T 0 0) as [_ | Hn]; [reflexivity | contradiction].
Qed.

Lemma np_add_finite_non_finite (a : np_float) (b : R) :
  is_finite a = false -> is_finite (np_add_finite a b) = false.
Proof. destruct a; cbn; intros H; try discriminate; reflexivity. Qed.

(** On a segment with distinct endpoint times the two embeddings agree:
    every entry is the real quotient. *)
Lemma interpolate_np_finite (seg : segment) (t : R) :
  let '(_, _, time0, time1, _) := seg in
  time1 <> time0 -> interpolate_np seg t = finite_cmd (interpolate seg t).
Proof.
  destruct seg as [[[[[[a0 b0] c0] [[a1 b1] c1]] t0] t1] y]. intros Hd.
  assert (Hd' : t1 - t0 <> 0) by lra.
  unfold interpolate_np, interpolate, finite_cmd, finite3, vadd, vdiv, vscale,
    vsub.
  rewrite !np_true_divide_nonzero by exact Hd'. reflexivity.
Qed.

Lemma trajectory_control_np_agrees pos yaws times t self p0 p1 t0 t1 y :
  result_of (select_segment pos yaws times t self)
  = Returned (p0, p1, t0, t1, y) ->
  t1 <> t0 ->
  exists cmd,
    result_of (trajectory_control pos yaws times t self) = Returned cmd
    /\ result_of (trajectory_control_np pos yaws times t self)
       = Returned (finite_cmd cmd).
Proof.
  intros Hsel Hd.
  destruct (select_segment pos yaws times t self) as [o self'] eqn:Hrun.
  unfold result_of, fst in Hsel. subst o.
  rewrite (trajectory_control_run _ _ _ _ _ _ _ Hrun).
  rewrite (trajectory_control_np_run _ _ _ _ _ _ _ Hrun).
  unfold result_of, fst. eexists. split; [reflexivity | ].
  f_equal. apply (interpolate_np_finite (p0, p1, t0, t1, y) t). exact Hd.
Qed.

(** On a segment with equal endpoint times no entry of either array is a
    real number, and both arrays are all nan when the two endpoint
    positions coincide. *)
Lemma interpolate_np_degenerate (p0 p1 : vec3) (t0 y t : R) :
  exists position_cmd velocity_cmd : np_vec3,
    interpolate_np (p0, p1, t0, t0, y) t = (position_cmd, velocity_cmd, y)
    /\ all_non_finite position_cmd
    /\ all_non_finite velocity_cmd
    /\ (p1 = p0 -> position_cmd = nan3 /\ velocity_cmd = nan3).
Proof.
  destruct p0 as [[a0 b0] c0], p1 as [[a1 b1] c1].
  unfold interpolate_np, vscale, vsub.
  replace (t0 - t0) with 0 by ring.
  eexists. eexists. split; [reflexivity | ].
  unfold all_non_finite, nan3.
  split; [repeat split; apply np_add_finite_non_finite;
          apply np_true_divide_zero_non_finite | ].
  split; [repeat split; apply np_true_divide_zero_non_finite | ].
  intros Hsame. injection Hsame as -> -> ->.
  rewrite !np_true_divide_zero_nan by ring. split; reflexivity.
Qed.

(** C5: when the selected segment has equal endpoint times,
    [trajectory_control] raises nothing: it returns a triple whose
    yaw_cmd is the yaw of the selected segment and in which no entry of
    position_cmd or velocity_cmd is a number (each is nan or an
    infinity, the result of numpy's division by the zero interval); both
    arrays are all nan when the two endpoint positions coincide. *)
Theorem trajectory_control_np_equal_times
  (position_trajectory : list vec3) (yaw_trajectory time_trajectory : list R)
  (current_time : R) (self : NonlinearController)
  (position0 position1 : vec3) (time0 time1 yaw_cmd : R) :
  result_of (select_segment position_trajectory yaw_trajectory time_trajectory
                            current_time self)
  = Returned (position0, position1, time0, time1, yaw_cmd) ->
  time1 = time0 ->
  exists position_cmd velocity_cmd : np_vec3,
    result_of (trajectory_control_np position_trajectory yaw_trajectory
                                     time_trajectory current_time self)
    = Returned (position_cmd, velocity_cmd, yaw_cmd)
    /\ all_non_finite position_cmd
    /\ all_non_finite velocity_cmd
    /\ (position1 = position0 -> position_cmd = nan3 /\ velocity_cmd = nan3).
Proof.
  intros Hsel Heq. subst time1.
  destruct (select_segment position_trajectory yaw_trajectory time_trajectory
              current_time self) as [o self'] eqn:Hrun.
  unfold result_of, fst in Hsel. subst o.
  rewrite (trajectory_control_np_run _ _ _ _ _ _ _ Hrun).
  unfold result_of, fst.
  destruct (interpolate_np_degenerate position0 position1 time0 yaw_cmd
              current_time) as (pc & vc & Hval & Hpc & Hvc & Hnan).
  exists pc, vc. rewrite Hval. repeat split; try assumption; apply Hnan;
    assumption.
Qed.

Lemma trajectory_control_np_equal_times_witness :
  result_of (select_segment [(1, 2, 3)] [0.5] [1] 0 init)
  = Returned ((1, 2, 3), (1, 2, 3), 1, 1, 0.5)
  /\ 1 = 1 :> R
  /\ exists position_cmd velocity_cmd : np_vec3,
       result_of (trajectory_control_np [(1, 2, 3)] [0.5] [1] 0 init)
       = Returned (position_cmd, velocity_cmd, 0.5)
       /\ all_non_finite position_cmd
       /\ all_non_finite velocity_cmd
       /\ ((1, 2, 3) = (1, 2, 3) :> vec3 ->
           position_cmd = nan3 /\ velocity_cmd = nan3).
Proof.
  assert (Hsel : result_of (select_segment [(1, 2, 3)] [0.5] [1] 0 init)
                 = Returned ((1, 2, 3), (1, 2, 3), 1, 1, 0.5))
    by (rewrite select_segment_single_before; reflexivity).
  split; [exact Hsel | ]. split; [reflexivity | ].
  exact (trajectory_control_np_equal_times
           [(1, 2, 3)] [0.5] [1] 0 init (1, 2, 3) (1, 2, 3) 1 1 0.5
           Hsel eq_refl).
Defined.

(** C5, as stated, fails: for a single waypoint at time 1 queried at time
    0 the selected segment has time1 = time0 = 1, and the call returns
    two all-nan arrays and the waypoint's yaw instead of raising an
    error. *)
Lemma trajectory_control_np_degenerate_returns_nan :
  result_of (select_segment [(1, 2, 3)] [0.5] [1] 0 init)
  = Returned ((1, 2, 3), (1, 2, 3), 1, 1, 0.5)
  /\ trajectory_control_np [(1, 2, 3)] [0.5] [1] 0 init
     = (Returned (nan3, nan3, 0.5), init)
  /\ ~ exists e, result_of (trajectory_control_np [(1, 2, 3)] [0.5] [1] 0 init)
                 = Raised e.
Proof.
  assert (Hrun : trajectory_control_np [(1, 2, 3)] [0.5] [1] 0 init
                 = (Returned (nan3, nan3, 0.5), init)).
  { rewrite (trajectory_control_np_run _ _ _ _ _ _ _ select_segment_single_before).
    destruct (interpolate_np_degenerate (1, 2, 3) (1, 2, 3) 1 0.5 0)
      as (pc & vc & Hval & _ & _ & Hnan).
    destruct (Hnan eq_refl) as [-> ->].
    exact (f_equal (fun cmd => (Returned cmd, init)) Hval). }
  rewrite select_segment_single_before, Hrun. unfold result_of, fst.
  split; [reflexivity | ]. split; [reflexivity | ].
  intros [e He]. discriminate.
Qed.

(** Two waypoints with the same time, queried later: the segment between
    them has a zero interval, and the moving coordinate is commanded to
    infinity. *)
Example trajectory_control_np_duplicate_times :
  trajectory_control_np [(0, 0, 0); (1, 0, 0)] [0; 0] [0; 0] 1 init
  = (Returned ((PosInf, NaN, NaN), (PosInf, NaN, NaN), 0), init).
Proof.
  rewrite (trajectory_control_np_run _ _ _ _ _
             ((0, 0, 0), (1, 0, 0), 0, 0, 0) init).
  - unfold interpolate_np, vscale, vsub, np_true_divide.
    replace (0 - 0) with 0 by ring.
    replace (1 - 0) with 1 by ring.
    replace (1 * 1) with 1 by ring.
    replace (0 * 1) with 0 by ring.
    destruct (Req_dec_T 0 0) as [_ | Hn]; [ | contradiction].
    destruct (Req_dec_T 1 0) as [H1 | _]; [lra | ].
    destruct (Rlt_dec 0 1) as [_ | Hn]; [ | lra].
    reflexivity.
  - apply select_segment_after with (i := 0%Z).
    + cbn [map np_argmin]. f_equal.
      rewrite argmin_from_keeps; [reflexivity | ].
      constructor; [lra | constructor].
    + reflexivity.
    + lra.
    + reflexivity.
    + cbn. lia.
    + reflexivity.
    + reflexivity.
    + reflexivity.
Qed.

(** * Further properties of the stages *)

(** ** The rotation matrix *)

Section Rotation.

Variables phi theta psi : R.

(** The nine entries of [Rz @ (Ry @ Rx)]. *)
Lemma rotation_R_entries :
  rotation_R (phi, theta, psi) =
  ((cos psi * cos theta,
    cos psi * (sin theta * sin phi) - sin psi * cos phi,
    cos psi * (sin theta * cos phi) + sin psi * sin phi),
   (sin psi * cos theta,
    sin psi * (sin theta * sin phi) + cos psi * cos phi,
    sin psi * (sin theta * cos phi) - cos psi * sin phi),
   (- sin theta, cos theta * sin phi, cos theta * cos phi)).
Proof.
  unfold rotation_R, matmul, row, col, dot, get3.
  f_equal; [f_equal | ]; (f_equal; [f_equal | ]); ring.
Qed.

(** The rotation matrix is orthogonal for every attitude: [R @ R.T] is the
    identity. *)
Theorem rotation_R_orthogonal :
  matmul (rotation_R (phi, theta, psi)) (transpose (rotation_R (phi, theta, psi)))
  = identity3.
Proof.
  rewrite rotation_R_entries.
  unfold matmul, transpose, identity3, row, col, dot, get3.
  pose proof (sin2_cos2 phi) as Hphi.
  pose proof (sin2_cos2 theta) as Htheta.
  pose proof (sin2_cos2 psi) as Hpsi.
  unfold Rsqr in *.
  generalize dependent (sin phi). generalize dependent (cos phi).
  generalize dependent (sin theta). generalize dependent (cos theta).
  generalize dependent (sin psi). generalize dependent (cos psi).
  intros c3 s3 H3 c2 s2 H2 c1 s1 H1.
  f_equal; [f_equal | ]; (f_equal; [f_equal | ]); nsatz.
Qed.

(** The rotation matrix has determinant 1 for every attitude. *)
Theorem rotation_R_det : det3 (rotation_R (phi, theta, psi)) = 1.
Proof.
  rewrite rotation_R_entries. unfold det3, mget, row, get3.
  pose proof (sin2_cos2 phi) as Hphi.
  pose proof (sin2_cos2 theta) as Htheta.
  pose proof (sin2_cos2 psi) as Hpsi.
  unfold Rsqr in *.
  generalize dependent (sin phi). generalize dependent (cos phi).
  generalize dependent (sin theta). generalize dependent (cos theta).
  generalize dependent (sin psi). generalize dependent (cos psi).
  intros c3 s3 H3 c2 s2 H2 c1 s1 H1.
  nsatz.
Qed.

End Rotation.

(** ** The constructor *)

(** The gains set by [__init__] are critically damped on the three
    position axes: each derivative gain squared is four times the
    proportional gain, and the altitude derivative gain is 16. *)
Theorem init_gains_critically_damped :
  z_k_d init * z_k_d init = 4 * z_k_p init
  /\ x_k_d init * x_k_d init = 4 * x_k_p init
  /\ y_k_d init * y_k_d init = 4 * y_k_p init
  /\ z_k_d init = 16
  /\ z_error_sum init = 0.
Proof.
  cbv [init z_k_d z_k_p x_k_d x_k_p y_k_d y_k_p z_error_sum].
  assert (H64 : 0 <= 64.0) by lra.
  assert (H25 : 0 <= 0.5 * 5) by lra.
  pose proof (sqrt_sqrt _ H64) as Hz.
  pose proof (sqrt_sqrt _ H25) as Hx.
  assert (Hz8 : sqrt 64.0 = 8).
  { replace 64.0 with (8 * 8) by lra. apply sqrt_square. lra. }
  repeat split; try nra; try lra.
Qed.

(** ** Altitude stage: tilt, yaw and repeated ticks *)

(** The yaw angle plays no part in [altitude_control]: two calls that
    differ only in the yaw component of the attitude return the same
    thrust and leave the controller in the same state. *)
Theorem altitude_control_ignores_yaw
  (self : NonlinearController)
  (altitude_cmd vertical_velocity_cmd altitude vertical_velocity : R)
  (phi theta psi psi' : R) (acceleration_ff : R) :
  altitude_control altitude_cmd vertical_velocity_cmd altitude
                   vertical_velocity (phi, theta, psi) acceleration_ff self
  = altitude_control altitude_cmd vertical_velocity_cmd altitude
                     vertical_velocity (phi, theta, psi') acceleration_ff self.
Proof.
  rewrite !altitude_control_run. unfold altitude_thrust_raw.
  rewrite !rotation_R_22. reflexivity.
Qed.

(** Tilt compensation: when the raw command is inside the clamp range and
    the vehicle is not at 90 degrees of roll or pitch, the returned thrust
    times cos(theta)*cos(phi) is [u_bar + GRAVITY], that is the vertical
    component of the thrust matches the commanded vertical acceleration. *)
Theorem altitude_control_tilt_compensation
  (self : NonlinearController)
  (altitude_cmd vertical_velocity_cmd altitude vertical_velocity : R)
  (phi theta psi : R) (acceleration_ff : R) :
  cos theta * cos phi <> 0 ->
  0.1 <= altitude_thrust_raw self altitude_cmd vertical_velocity_cmd altitude
           vertical_velocity (phi, theta, psi) acceleration_ff
      <= MAX_THRUST / DRONE_MASS_KG ->
  exists thrust_cmd : R,
    result_of (altitude_control altitude_cmd vertical_velocity_cmd altitude
                 vertical_velocity (phi, theta, psi) acceleration_ff self)
    = Returned thrust_cmd
    /\ thrust_cmd * (cos theta * cos phi)
       = altitude_u_bar
           (set_z_error_sum self (z_error_sum self + (altitude_cmd - altitude)))
           altitude_cmd vertical_velocity_cmd altitude vertical_velocity
           acceleration_ff
         + GRAVITY.
Proof.
  intros Htilt Hin. rewrite altitude_control_run. unfold result_of, fst.
  eexists. split; [reflexivity | ].
  rewrite np_clip_inside by exact Hin.
  unfold altitude_thrust_raw. rewrite rotation_R_22.
  set (r := cos theta * cos phi) in *.
  unfold Rdiv. rewrite Rmult_assoc, Rinv_l by exact Htilt. ring.
Qed.

Lemma altitude_control_tilt_compensation_witness :
  cos 0 * cos 0 <> 0
  /\ 0.1 <= altitude_thrust_raw init 0 0 0 0 (0, 0, 0) 15
         <= MAX_THRUST / DRONE_MASS_KG
  /\ exists thrust_cmd : R,
       result_of (altitude_control 0 0 0 0 (0, 0, 0) 15 init) = Returned thrust_cmd
       /\ thrust_cmd * (cos 0 * cos 0)
          = altitude_u_bar (set_z_error_sum init (z_error_sum init + (0 - 0)))
                           0 0 0 0 15
            + GRAVITY.
Proof.
  assert (H1 : cos 0 * cos 0 <> 0) by (rewrite cos_0; lra).
  assert (H2 : 0.1 <= altitude_thrust_raw init 0 0 0 0 (0, 0, 0) 15
               <= MAX_THRUST / DRONE_MASS_KG).
  { unfold altitude_thrust_raw. rewrite rotation_R_zero.
    unfold altitude_u_bar, set_z_error_sum, init, GRAVITY, mget, row, get3,
      MAX_THRUST, DRONE_MASS_KG.
    cbv [z_k_p z_k_d z_k_i z_error_sum]. lra. }
  split; [exact H1 | ]. split; [exact H2 | ].
  exact (altitude_control_tilt_compensation init 0 0 0 0 0 0 0 15 H1 H2).
Defined.

(** With the vehicle inverted ([R[2][2] < 0]) the saturations swap: every
    large enough feedforward acceleration returns the lower bound 0.1 and
    every negative enough one returns the upper bound. *)
Theorem altitude_control_inverted_saturation
  (self : NonlinearController)
  (altitude_cmd vertical_velocity_cmd altitude vertical_velocity : R)
  (attitude : attitude_t) :
  mget (rotation_R attitude) 2 2 < 0 ->
  exists hi lo : R,
    (forall ff, hi <= ff ->
       result_of (altitude_control altitude_cmd vertical_velocity_cmd altitude
                    vertical_velocity attitude ff self)
       = Returned 0.1)
    /\ (forall ff, ff <= lo ->
       result_of (altitude_control altitude_cmd vertical_velocity_cmd altitude
                    vertical_velocity attitude ff self)
       = Returned (MAX_THRUST / DRONE_MASS_KG)).
Proof.
  intros Hr.
  set (r := mget (rotation_R attitude) 2 2) in *.
  set (base := altitude_thrust_raw self altitude_cmd vertical_velocity_cmd
                 altitude vertical_velocity attitude 0 * r).
  pose proof thrust_bounds_ordered as Hb.
  assert (Hflip : forall x c, c * r <= x -> x / r <= c).
  { intros x c Hx. apply Rmult_le_reg_r with (- r); [lra | ].
    replace (x / r * - r) with (- x) by (field; lra). lra. }
  assert (Hflip' : forall x c, x <= c * r -> c <= x / r).
  { intros x c Hx. apply Rmult_le_reg_r with (- r); [lra | ].
    replace (x / r * - r) with (- x) by (field; lra). lra. }
  exists (0.1 * r - base), (MAX_THRUST / DRONE_MASS_KG * r - base).
  split; intros ff Hff; rewrite altitude_control_run; unfold result_of, fst;
    f_equal;
    rewrite altitude_thrust_raw_ff by (fold r; lra); fold r; fold base.
  - apply np_clip_below; [exact Hb | ]. apply Hflip. lra.
  - apply np_clip_above; [exact Hb | ]. apply Hflip'. lra.
Qed.

Lemma altitude_control_inverted_saturation_witness :
  mget (rotation_R (PI, 0, 0)) 2 2 < 0
  /\ exists hi lo : R,
       (forall ff, hi <= ff ->
          result_of (altitude_control 0 0 0 0 (PI, 0, 0) ff init) = Returned 0.1)
       /\ (forall ff, ff <= lo ->
          result_of (altitude_control 0 0 0 0 (PI, 0, 0) ff init)
          = Returned (MAX_THRUST / DRONE_MASS_KG)).
Proof.
  assert (H : mget (rotation_R (PI, 0, 0)) 2 2 < 0)
    by (rewrite rotation_R_22, cos_0, cos_PI; lra).
  split; [exact H | ].
  exact (altitude_control_inverted_saturation init 0 0 0 0 (PI, 0, 0) H).
Defined.

(** Running the ticks one after the other. *)
Lemma altitude_ticks_cons a rest self :
  altitude_ticks (a :: rest) self =
  let self1 := set_z_error_sum self (z_error_sum self + altitude_error a) in
  match altitude_ticks rest self1 with
  | (Returned more, self2) =>
      (Returned (np_clip (altitude_thrust_raw self (arg_altitude_cmd a)
                            (arg_vertical_velocity_cmd a) (arg_altitude a)
                            (arg_vertical_velocity a) (arg_attitude a)
                            (arg_acceleration_ff a))
                         0.1 (MAX_THRUST / DRONE_MASS_KG) :: more), self2)
  | (Raised e, self2) => (Raised e, self2)
  end.
Proof.
  cbn [altitude_ticks]. unfold bind at 1. rewrite altitude_control_run.
  unfold bind, ret, altitude_error.
  destruct (altitude_ticks rest _) as [[more | e] self2]; reflexivity.
Qed.

(** Over any sequence of ticks the accumulator ends at its initial value
    plus the sum of all altitude errors seen: it is never reset, never
    limited (also while the thrust is saturated), and every gain is kept;
    one thrust command is returned per tick, each inside the clamp range. *)
Theorem altitude_ticks_accumulate (calls : list altitude_args)
  (self : NonlinearController) :
  exists thrusts : list R,
    result_of (altitude_ticks calls self) = Returned thrusts
    /\ length thrusts = length calls
    /\ Forall (fun x => 0.1 <= x <= MAX_THRUST / DRONE_MASS_KG) thrusts
    /\ z_error_sum (state_after (altitude_ticks calls self))
       = z_error_sum self + Rsum (map altitude_error calls)
    /\ same_gains self (state_after (altitude_ticks calls self)).
Proof.
  revert self. induction calls as [ | a rest IH]; intros self.
  - exists []. cbn. repeat split; try constructor; try lra.
  - rewrite altitude_ticks_cons. cbv zeta.
    specialize (IH (set_z_error_sum self (z_error_sum self + altitude_error a))).
    destruct IH as (more & Hres & Hlen & Hall & Hsum & Hgains).
    destruct (altitude_ticks rest _) as [o self2].
    unfold result_of, state_after, fst, snd in *. subst o.
    eexists. split; [reflexivity | ].
    split; [cbn [length]; congruence | ].
    split; [constructor; [apply np_clip_bounds; apply thrust_bounds_ordered
                         | exact Hall] | ].
    split.
    + rewrite Hsum. cbn [map Rsum fold_right z_error_sum set_z_error_sum].
      fold (Rsum (map altitude_error rest)). lra.
    + unfold same_gains in *. cbn in Hgains. exact Hgains.
Qed.

(** ** Yaw stage: symmetry and the half-period remainder *)

Lemma Rtrunc_opp (x : R) : Rtrunc (- x) = (- Rtrunc x)%Z.
Proof.
  unfold Rtrunc.
  destruct (Rle_dec 0 (- x)) as [Hn | Hn]; destruct (Rle_dec 0 x) as [Hp | Hp].
  - assert (Hx : x = 0) by lra. subst x. rewrite Ropp_0.
    change 0 with (IZR 0). rewrite <- (Int_part_spec (IZR 0) 0); [reflexivity | ].
    lra.
  - lia.
  - rewrite Ropp_involutive. reflexivity.
  - lra.
Qed.

Lemma Rtrunc_unit_interval (x : R) (n : Z) :
  (0 <= n)%Z -> IZR n <= x < IZR n + 1 -> Rtrunc x = n.
Proof.
  intros Hn Hx. unfold Rtrunc.
  assert (H0 : 0 <= IZR n) by (apply IZR_le; exact Hn).
  destruct (Rle_dec 0 x) as [_ | Hneg]; [ | lra].
  symmetry. apply Int_part_spec. lra.
Qed.

(** Swapping the commanded and the measured yaw negates the yaw rate:
    [fmod] is odd in its first argument. *)
Theorem yaw_control_antisymmetric (self : NonlinearController) (yaw_cmd yaw : R) :
  exists rate : R,
    result_of (yaw_control yaw_cmd yaw self) = Returned rate
    /\ result_of (yaw_control yaw yaw_cmd self) = Returned (- rate).
Proof.
  pose proof PI_RGT_0 as Hpi.
  rewrite !yaw_control_run. unfold result_of, fst.
  eexists. split; [reflexivity | ]. f_equal.
  replace ((yaw - yaw_cmd) / PI) with (- ((yaw_cmd - yaw) / PI))
    by (field; lra).
  rewrite Rtrunc_opp, opp_IZR. ring.
Qed.

(** A yaw error between pi and 2*pi is commanded as the error less pi, a
    rate of the same sign as the error: the remainder is taken modulo pi,
    not modulo a full turn. *)
Theorem yaw_control_error_beyond_pi (self : NonlinearController) (yaw_cmd yaw : R) :
  PI <= yaw_cmd - yaw < 2 * PI ->
  result_of (yaw_control yaw_cmd yaw self)
  = Returned (k_p_yaw self * (yaw_cmd - yaw - PI))
  /\ 0 <= yaw_cmd - yaw - PI < PI.
Proof.
  intros [Hlo Hhi]. pose proof PI_RGT_0 as Hpi.
  rewrite yaw_control_run. unfold result_of, fst. split; [ | lra].
  rewrite (Rtrunc_unit_interval _ 1); [f_equal; ring | lia | ].
  split.
  - apply Rdiv_ge_of_mul; lra.
  - apply Rmult_lt_reg_r with PI; [exact Hpi | ].
    unfold Rdiv. rewrite Rmult_assoc, Rinv_l by lra. lra.
Qed.

Lemma yaw_control_error_beyond_pi_witness :
  PI <= 3 * PI / 2 - 0 < 2 * PI
  /\ (result_of (yaw_control (3 * PI / 2) 0 init)
      = Returned (k_p_yaw init * (3 * PI / 2 - 0 - PI))
      /\ 0 <= 3 * PI / 2 - 0 - PI < PI).
Proof.
  assert (H : PI <= 3 * PI / 2 - 0 < 2 * PI) by (pose proof PI_RGT_0; lra).
  split; [exact H | ].
  exact (yaw_control_error_beyond_pi init (3 * PI / 2) 0 H).
Defined.

(** ** Lateral and body-rate stages, continued *)

(** The lateral command depends on positions and velocities through their
    errors only: shifting the commanded and the measured position by one
    offset, and the commanded and the measured velocity by another, leaves
    the acceleration command unchanged. *)
Theorem lateral_position_control_shift_invariant
  (self : NonlinearController)
  (local_position_cmd local_velocity_cmd local_position local_velocity : vec2)
  (acceleration_ff dp dv : vec2) :
  let shift (u d : vec2) : vec2 := (fst u + fst d, snd u + snd d) in
  lateral_position_control (shift local_position_cmd dp)
    (shift local_velocity_cmd dv) (shift local_position dp)
    (shift local_velocity dv) acceleration_ff self
  = lateral_position_control local_position_cmd local_velocity_cmd
      local_position local_velocity acceleration_ff self.
Proof.
  intros shift. rewrite !lateral_position_control_run. subst shift.
  cbn [fst snd]. f_equal. f_equal. f_equal; ring.
Qed.

(** [body_rate_control] never limits its output: with a non-zero roll-rate
    gain, any torque level (MAX_TORQUE included) is exceeded by the roll
    moment of some rate error. *)
Theorem body_rate_control_unbounded (self : NonlinearController) (level : R) :
  k_p_p self <> 0 ->
  exists (body_rate_cmd : vec3) (moment : vec3),
    result_of (body_rate_control body_rate_cmd (0, 0, 0) self) = Returned moment
    /\ level < get3 moment 0.
Proof.
  intros Hk.
  exists ((level + 1) / k_p_p self, 0, 0). eexists.
  rewrite body_rate_control_run. unfold result_of, fst.
  split; [reflexivity | ].
  unfold vmul, vsub, get3.
  replace (k_p_p self * ((level + 1) / k_p_p self - 0)) with (level + 1)
    by (field; exact Hk).
  lra.
Qed.

Lemma body_rate_control_unbounded_witness :
  k_p_p init <> 0
  /\ exists (body_rate_cmd : vec3) (moment : vec3),
       result_of (body_rate_control body_rate_cmd (0, 0, 0) init) = Returned moment
       /\ MAX_TORQUE < get3 moment 0.
Proof.
  assert (H : k_p_p init <> 0) by (cbv [k_p_p init]; lra).
  split; [exact H | ].
  exact (body_rate_control_unbounded init MAX_TORQUE H).
Defined.

(** The moment command is additive in the rate error: the moment for the
    sum of two errors is the sum of their moments. *)
Theorem body_rate_control_additive (self : NonlinearController)
  (cmd1 rate1 cmd2 rate2 : vec3) :
  exists m1 m2 : vec3,
    result_of (body_rate_control cmd1 rate1 self) = Returned m1
    /\ result_of (body_rate_control cmd2 rate2 self) = Returned m2
    /\ result_of (body_rate_control (vadd cmd1 cmd2) (vadd rate1 rate2) self)
       = Returned (vadd m1 m2).
Proof.
  rewrite !body_rate_control_run. unfold result_of, fst.
  eexists. eexists. split; [reflexivity | ]. split; [reflexivity | ].
  f_equal.
  destruct cmd1 as [[a1 b1] c1], rate1 as [[x1 y1] z1],
           cmd2 as [[a2 b2] c2], rate2 as [[x2 y2] z2].
  unfold vmul, vsub, vadd. f_equal; [f_equal | ]; ring.
Qed.

(** ** Trajectory stage: nearest waypoint, totality and interpolation *)

Section NearestSpec.

(** Invariant of the scan: the candidate is a least element of the part
    already seen. *)
Lemma argmin_from_spec (full : list R) :
  forall (l pre : list R) (best_i i : nat) (best : R),
    full = pre ++ l -> i = length pre -> (best_i < i)%nat ->
    nth best_i full 0 = best ->
    (forall j, (j < i)%nat -> best <= nth j full 0) ->
    (argmin_from best_i best i l < length full)%nat
    /\ forall j, (j < length full)%nat ->
         nth (argmin_from best_i best i l) full 0 <= nth j full 0.
Proof.
  induction l as [ | x l IH]; intros pre best_i i best Hfull Hi Hbi Hbest Hmin;
    cbn [argmin_from].
  - rewrite app_nil_r in Hfull. subst full i. split; [lia | ].
    intros j Hj. rewrite Hbest. apply Hmin. exact Hj.
  - assert (Hx : nth i full 0 = x).
    { subst full i. rewrite app_nth2 by lia. rewrite Nat.sub_diag. reflexivity. }
    assert (Hfull' : full = (pre ++ [x]) ++ l)
      by (rewrite <- app_assoc; exact Hfull).
    assert (Hi' : S i = length (pre ++ [x]))
      by (rewrite length_app; cbn [length]; lia).
    destruct (Rlt_dec x best) as [Hlt | Hge].
    + apply (IH (pre ++ [x])); try assumption; try lia.
      intros j Hj. destruct (Nat.eq_dec j i) as [-> | Hne].
      * rewrite Hx. lra.
      * assert (Hlt' : (j < i)%nat) by lia. specialize (Hmin j Hlt'). lra.
    + apply (IH (pre ++ [x])); try assumption; try lia.
      intros j Hj. destruct (Nat.eq_dec j i) as [-> | Hne].
      * rewrite Hx. lra.
      * apply Hmin. lia.
Qed.

(** On a non-empty array [np.argmin] returns an index inside the array
    whose element is below or equal to every element. *)
Lemma np_argmin_spec (l : list R) :
  l <> [] ->
  exists i : nat,
    np_argmin l = Returned (Z.of_nat i)
    /\ (i < length l)%nat
    /\ forall j, (j < length l)%nat -> nth i l 0 <= nth j l 0.
Proof.
  intros Hne. destruct l as [ | x l]; [contradiction | ].
  exists (argmin_from 0 x 1 l). split; [reflexivity | ].
  apply (argmin_from_spec (x :: l) l [x] 0%nat 1%nat x); try reflexivity; try lia.
  intros j Hj. assert (j = 0%nat) by lia. subst j. cbn. lra.
Qed.

Lemma nth_distance (times : list R) (t : R) (j : nat) :
  (j < length times)%nat ->
  nth j (map (fun x => Rabs (x - t)) times) 0 = Rabs (nth j times 0 - t).
Proof.
  intros Hj.
  rewrite (nth_indep _ 0 ((fun x => Rabs (x - t)) 0))
    by (rewrite length_map; exact Hj).
  rewrite (map_nth (fun x => Rabs (x - t))). reflexivity.
Qed.

(** The waypoint selected by the nearest-time search is a nearest one. *)
Lemma nearest_index_spec (times : list R) (t : R) :
  times <> [] ->
  exists i : nat,
    np_argmin (map (fun x => Rabs (x - t)) times) = Returned (Z.of_nat i)
    /\ (i < length times)%nat
    /\ forall j, (j < length times)%nat ->
         Rabs (nth i times 0 - t) <= Rabs (nth j times 0 - t).
Proof.
  intros Hne.
  destruct (np_argmin_spec (map (fun x => Rabs (x - t)) times))
    as (i & Hrun & Hi & Hmin).
  { destruct times; [contradiction | discriminate]. }
  rewrite length_map in Hi, Hmin.
  exists i. split; [exact Hrun | ]. split; [exact Hi | ].
  intros j Hj. rewrite <- !nth_distance by assumption. apply Hmin. exact Hj.
Qed.

Lemma sorted_nth_lt (l : list R) :
  StronglySorted Rlt l ->
  forall i j, (i < j < length l)%nat -> nth i l 0 < nth j l 0.
Proof.
  induction 1 as [ | a l Hs IH Hall]; intros i j Hij; [cbn in Hij; lia | ].
  destruct j as [ | j]; [lia | ]. cbn [length] in Hij.
  destruct i as [ | i]; cbn [nth].
  - rewrite Forall_forall in Hall. apply Hall. apply nth_In. lia.
  - apply IH. lia.
Qed.

Lemma sorted_nth_le (l : list R) :
  StronglySorted Rlt l ->
  forall i j, (i <= j < length l)%nat -> nth i l 0 <= nth j l 0.
Proof.
  intros Hs i j Hij. destruct (Nat.eq_dec i j) as [-> | Hne]; [lra | ].
  left. apply sorted_nth_lt; [exact Hs | lia].
Qed.

End NearestSpec.

Section Lookup.

Context {A : Type}.

(** Every index in [-len, len) is served. *)
Lemma py_getitem_valid (l : list A) (i : Z) :
  (- Z.of_nat (length l) <= i < Z.of_nat (length l))%Z ->
  exists a, py_getitem l i = Returned a.
Proof.
  intros Hi. unfold py_getitem.
  set (j := if (i <? 0)%Z then (i + Z.of_nat (length l))%Z else i).
  assert (Hj : (0 <= j < Z.of_nat (length l))%Z).
  { subst j. destruct (Z.ltb_spec i 0); lia. }
  replace (0 <=? j)%Z with true by (symmetry; apply Z.leb_le; lia).
  replace (j <? Z.of_nat (length l))%Z with true
    by (symmetry; apply Z.ltb_lt; lia).
  cbn [andb].
  destruct (nth_error l (Z.to_nat j)) as [a | ] eqn:Hnth.
  - exists a. reflexivity.
  - apply nth_error_None in Hnth. lia.
Qed.

(** Every other index raises [IndexError]. *)
Lemma py_getitem_out_of_range (l : list A) (i : Z) :
  (i < - Z.of_nat (length l) \/ Z.of_nat (length l) <= i)%Z ->
  py_getitem l i = Raised IndexError.
Proof.
  intros Hi. unfold py_getitem.
  set (j := if (i <? 0)%Z then (i + Z.of_nat (length l))%Z else i).
  assert (Hj : (j < 0 \/ Z.of_nat (length l) <= j)%Z).
  { subst j. destruct (Z.ltb_spec i 0); lia. }
  destruct Hj as [Hj | Hj].
  - replace (0 <=? j)%Z with false by (symmetry; apply Z.leb_gt; lia).
    reflexivity.
  - replace (j <? Z.of_nat (length l))%Z with false
      by (symmetry; apply Z.ltb_ge; lia).
    rewrite andb_false_r. reflexivity.
Qed.

End Lookup.

(** For aligned non-empty sequences every lookup of [select_segment] is in
    range, whatever the order of the times. *)
Lemma select_segment_total pos yaws times t self :
  length pos = length times -> length yaws = length times -> times <> [] ->
  exists seg, select_segment pos yaws times t self = (Returned seg, self).
Proof.
  intros Hpos Hyaw Hne.
  assert (Hlen : (1 <= length times)%nat)
    by (destruct times; [contradiction | cbn; lia]).
  destruct (nearest_index_spec times t Hne) as (i & Hmin & Hi & _).
  destruct (py_getitem_valid times (Z.of_nat i)) as [tref Href]; [lia | ].
  destruct (py_getitem_valid pos (Z.of_nat i)) as [p Hp]; [lia | ].
  destruct (py_getitem_valid yaws (Z.of_nat i)) as [y Hy]; [lia | ].
  destruct (Rlt_dec t tref) as [Hlt | Hge].
  - destruct (py_getitem_valid pos (Z.of_nat i - 1)) as [p0 Hp0]; [lia | ].
    destruct (py_getitem_valid times (Z.of_nat i - 1)) as [t0 Ht0]; [lia | ].
    destruct (py_getitem_valid yaws (Z.of_nat i - 1)) as [y0 Hy0]; [lia | ].
    eexists. eapply select_segment_before; eassumption.
  - destruct (Z_lt_le_dec (Z.of_nat i) (Z.of_nat (length pos) - 1)) as [Hin | Hend].
    + destruct (py_getitem_valid pos (Z.of_nat i + 1)) as [p1 Hp1]; [lia | ].
      destruct (py_getitem_valid times (Z.of_nat i + 1)) as [t1 Ht1]; [lia | ].
      eexists. eapply select_segment_after; try eassumption. lra.
    + eexists. eapply select_segment_at_end; try eassumption. lra.
Qed.

(** [trajectory_control] returns, and touches nothing, whenever the three
    sequences have the same non-zero length: no order on the times is
    needed for the call to succeed. *)
Theorem trajectory_control_total
  (position_trajectory : list vec3) (yaw_trajectory time_trajectory : list R)
  (current_time : R) (self : NonlinearController) :
  length position_trajectory = length time_trajectory ->
  length yaw_trajectory = length time_trajectory ->
  time_trajectory <> [] ->
  exists cmd : vec3 * vec3 * R,
    trajectory_control position_trajectory yaw_trajectory time_trajectory
                       current_time self
    = (Returned cmd, self).
Proof.
  intros Hpos Hyaw Hne.
  destruct (select_segment_total position_trajectory yaw_trajectory
              time_trajectory current_time self Hpos Hyaw Hne) as [seg Hseg].
  exists (interpolate seg current_time).
  apply trajectory_control_run. exact Hseg.
Qed.

Lemma trajectory_control_total_witness :
  length [(0, 0, 0); (1, 1, 1)] = length [7; 3]
  /\ length [0.5; 0.25] = length [7; 3]
  /\ [7; 3] <> []
  /\ exists cmd : vec3 * vec3 * R,
       trajectory_control [(0, 0, 0); (1, 1, 1)] [0.5; 0.25] [7; 3] 4 init
       = (Returned cmd, init).
Proof.
  assert (H1 : length [(0, 0, 0); (1, 1, 1)] = length [7; 3]) by reflexivity.
  assert (H2 : length [0.5; 0.25] = length [7; 3]) by reflexivity.
  assert (H3 : [7; 3] <> []) by discriminate.
  split; [exact H1 | ]. split; [exact H2 | ]. split; [exact H3 | ].
  exact (trajectory_control_total [(0, 0, 0); (1, 1, 1)] [0.5; 0.25] [7; 3] 4
           init H1 H2 H3).
Defined.

Lemma py_getitem_raises {A : Type} (l : list A) (i : Z) (e : py_exception) :
  py_getitem l i = Raised e -> e = IndexError.
Proof.
  unfold py_getitem.
  destruct (_ && _)%bool; [destruct (nth_error l _) | ]; intros H;
    inversion H; reflexivity.
Qed.

(** Takes one lookup of the goal apart; a failed lookup can only have
    raised [IndexError]. *)
Ltac lookup_step :=
  match goal with
  | |- context [py_getitem ?l ?i] =>
      let H := fresh "Hget" in
      destruct (py_getitem l i) as [? | ?] eqn:H;
      [ | apply py_getitem_raises in H; subst ]
  | |- context [if ?c then _ else _] => destruct c
  end.

(** [trajectory_control] raises [ValueError] exactly when the time
    sequence is empty: the exception comes from [np.argmin] on the empty
    array, and no list lookup of the method raises it. *)
Theorem trajectory_control_value_error
  (position_trajectory : list vec3) (yaw_trajectory time_trajectory : list R)
  (current_time : R) (self : NonlinearController) :
  result_of (trajectory_control position_trajectory yaw_trajectory
                                time_trajectory current_time self)
  = Raised ValueError
  <-> time_trajectory = [].
Proof.
  split.
  - intros Hraise. destruct time_trajectory as [ | t0 times]; [reflexivity | ].
    exfalso. revert Hraise.
    unfold trajectory_control, select_segment, bind, lift, ret, result_of.
    cbn [map np_argmin].
    repeat lookup_step; cbn [fst]; discriminate.
  - intros ->. reflexivity.
Qed.

(** With aligned non-empty positions and times but an empty yaw sequence
    the call raises [IndexError] and leaves the controller unchanged. *)
Theorem trajectory_control_missing_yaw
  (position_trajectory : list vec3) (time_trajectory : list R)
  (current_time : R) (self : NonlinearController) :
  length position_trajectory = length time_trajectory ->
  time_trajectory <> [] ->
  trajectory_control position_trajectory [] time_trajectory current_time self
  = (Raised IndexError, self).
Proof.
  intros Hpos Hne.
  assert (Hlen : (1 <= length time_trajectory)%nat)
    by (destruct time_trajectory; [contradiction | cbn; lia]).
  destruct (nearest_index_spec time_trajectory current_time Hne)
    as (i & Hmin & Hi & _).
  destruct (py_getitem_valid time_trajectory (Z.of_nat i)) as [tref Href]; [lia | ].
  destruct (py_getitem_valid position_trajectory (Z.of_nat i)) as [p Hp]; [lia | ].
  unfold trajectory_control, select_segment, bind, lift, ret.
  rewrite Hmin, Href.
  destruct (Rlt_dec current_time tref) as [Hlt | Hge].
  - destruct (py_getitem_valid position_trajectory (Z.of_nat i - 1))
      as [p0 Hp0]; [lia | ].
    destruct (py_getitem_valid time_trajectory (Z.of_nat i - 1))
      as [t0 Ht0]; [lia | ].
    rewrite Hp0, Hp, Ht0.
    rewrite (py_getitem_out_of_range (@nil R)) by (cbn; lia). reflexivity.
  - rewrite (py_getitem_out_of_range (@nil R)) by (cbn; lia). reflexivity.
Qed.

Lemma trajectory_control_missing_yaw_witness :
  length [(1, 2, 3)] = length [4]
  /\ [4] <> []
  /\ trajectory_control [(1, 2, 3)] [] [4] 9 init = (Raised IndexError, init).
Proof.
  assert (H1 : length [(1, 2, 3)] = length [4]) by reflexivity.
  assert (H2 : [4] <> []) by discriminate.
  split; [exact H1 | ]. split; [exact H2 | ].
  exact (trajectory_control_missing_yaw [(1, 2, 3)] [4] 9 init H1 H2).
Defined.

(** Inside the time range of strictly increasing waypoints the selected
    segment is the one whose times bracket the query. *)
Lemma select_segment_bracket pos yaws times t self :
  waypoints pos yaws times ->
  nth 0 times 0 <= t < last times 0 ->
  exists k : nat,
    (S k < length times)%nat
    /\ nth k times 0 <= t < nth (S k) times 0
    /\ select_segment pos yaws times t self
       = (Returned (nth k pos zero3, nth (S k) pos zero3,
                    nth k times 0, nth (S k) times 0, nth k yaws 0), self).
Proof.
  intros (Hpos & Hyaw & Hlen & Hsorted) [Hfirst Hlast].
  assert (Hne : times <> []) by (destruct times; [cbn in Hlen; lia | discriminate]).
  rewrite <- (nth_length_pred times 0 Hne) in Hlast.
  destruct (nearest_index_spec times t Hne) as (i & Hmin & Hi & Hnear).
  assert (Href : py_getitem times (Z.of_nat i) = Returned (nth i times 0))
    by (apply py_getitem_nat; exact Hi).
  destruct (Rlt_dec t (nth i times 0)) as [Hlt | Hge].
  - (* the nearest waypoint is ahead: segment (i-1, i) *)
    destruct i as [ | k]; [lra | ].
    exists k. split; [exact Hi | ].
    assert (Hk : nth k times 0 <= t).
    { destruct (Rle_dec (nth k times 0) t) as [Hle | Hgt]; [exact Hle | ].
      exfalso.
      assert (Hkk : nth k times 0 < nth (S k) times 0)
        by (apply sorted_nth_lt; [exact Hsorted | lia]).
      specialize (Hnear k ltac:(lia)).
      rewrite !Rabs_right in Hnear by lra. lra. }
    split; [lra | ].
    replace (Z.of_nat k) with (Z.of_nat (S k) - 1)%Z by lia.
    apply select_segment_before with (i := Z.of_nat (S k)).
    + exact Hmin.
    + exact Href.
    + exact Hlt.
    + replace (Z.of_nat (S k) - 1)%Z with (Z.of_nat k) by lia.
      apply py_getitem_nat. lia.
    + apply py_getitem_nat. lia.
    + replace (Z.of_nat (S k) - 1)%Z with (Z.of_nat k) by lia.
      apply py_getitem_nat. lia.
    + replace (Z.of_nat (S k) - 1)%Z with (Z.of_nat k) by lia.
      apply py_getitem_nat. lia.
  - (* the nearest waypoint is behind or reached: segment (i, i+1) *)
    assert (Hti : nth i times 0 <= t) by lra.
    assert (Hnotlast : (S i < length times)%nat).
    { destruct (Nat.eq_dec i (length times - 1)) as [-> | Hn]; [lra | lia]. }
    exists i. split; [exact Hnotlast | ].
    assert (Hnext : t < nth (S i) times 0).
    { destruct (Rlt_dec t (nth (S i) times 0)) as [Hlt | Hnlt]; [exact Hlt | ].
      exfalso.
      assert (Hii : nth i times 0 < nth (S i) times 0)
        by (apply sorted_nth_lt; [exact Hsorted | lia]).
      specialize (Hnear (S i) Hnotlast).
      rewrite !Rabs_left1 in Hnear by lra. lra. }
    split; [lra | ].
    apply select_segment_after with (i := Z.of_nat i).
    + exact Hmin.
    + exact Href.
    + exact Hti.
    + apply py_getitem_nat. lia.
    + lia.
    + apply py_getitem_nat. lia.
    + replace (Z.of_nat i + 1)%Z with (Z.of_nat (S i)) by lia.
      apply py_getitem_nat. lia.
    + replace (Z.of_nat i + 1)%Z with (Z.of_nat (S i)) by lia.
      apply py_getitem_nat. lia.
Qed.

Lemma interpolate_fraction (p0 p1 : vec3) (t0 t1 y t lambda : R) :
  t1 - t0 <> 0 -> lambda = (t - t0) / (t1 - t0) ->
  interpolate (p0, p1, t0, t1, y) t
  = (vadd (vscale (vsub p1 p0) lambda) p0, vdiv (vsub p1 p0) (t1 - t0), y).
Proof.
  intros Hd ->. destruct p0 as [[a0 b0] c0], p1 as [[a1 b1] c1].
  unfold interpolate, vadd, vdiv, vscale, vsub, Rdiv.
  f_equal. f_equal. f_equal; [f_equal | ]; ring.
Qed.

(** Piecewise-linear sampling: for aligned waypoints with strictly
    increasing times and a query time from the first waypoint time up to,
    but excluding, the last, the commands are those of the one segment
    [k, k+1] whose times bracket the query: position_cmd is the point at
    fraction lambda in [0, 1) between the two waypoints, velocity_cmd the
    segment's constant velocity and yaw_cmd the yaw of the segment's start. *)
Theorem trajectory_control_interpolates
  (position_trajectory : list vec3) (yaw_trajectory time_trajectory : list R)
  (current_time : R) (self : NonlinearController) :
  waypoints position_trajectory yaw_trajectory time_trajectory ->
  nth 0 time_trajectory 0 <= current_time < last time_trajectory 0 ->
  exists (k : nat) (lambda : R),
    (S k < length time_trajectory)%nat
    /\ nth k time_trajectory 0 <= current_time < nth (S k) time_trajectory 0
    /\ 0 <= lambda < 1
    /\ current_time
       = nth k time_trajectory 0
         + lambda * (nth (S k) time_trajectory 0 - nth k time_trajectory 0)
    /\ result_of (trajectory_control position_trajectory yaw_trajectory
                                     time_trajectory current_time self)
       = Returned
           (vadd (vscale (vsub (nth (S k) position_trajectory zero3)
                               (nth k position_trajectory zero3)) lambda)
                 (nth k position_trajectory zero3),
            vdiv (vsub (nth (S k) position_trajectory zero3)
                       (nth k position_trajectory zero3))
                 (nth (S k) time_trajectory 0 - nth k time_trajectory 0),
            nth k yaw_trajectory 0).
Proof.
  intros Hw Hrange.
  destruct (select_segment_bracket _ _ _ _ self Hw Hrange)
    as (k & Hk & [Hlo Hhi] & Hsel).
  exists k.
  generalize dependent (nth k time_trajectory 0).
  generalize dependent (nth (S k) time_trajectory 0).
  intros t1 Hhi t0 Hlo Hsel.
  assert (Hd : 0 < t1 - t0) by lra.
  exists ((current_time - t0) / (t1 - t0)).
  split; [exact Hk | ]. split; [split; lra | ].
  split.
  { split.
    - apply Rdiv_ge_of_mul; lra.
    - apply Rmult_lt_reg_r with (t1 - t0); [exact Hd | ].
      unfold Rdiv. rewrite Rmult_assoc, Rinv_l by lra. lra. }
  split; [field; lra | ].
  rewrite (trajectory_control_run _ _ _ _ _ _ _ Hsel). unfold result_of, fst.
  f_equal. apply interpolate_fraction; [lra | reflexivity].
Qed.

Lemma trajectory_control_interpolates_witness :
  waypoints [(0, 0, 0); (10, 0, 0); (10, 10, 0)] [0; 0.1; 0.3] [0; 10; 20]
  /\ nth 0 [0; 10; 20] 0 <= 14 < last [0; 10; 20] 0
  /\ exists (k : nat) (lambda : R),
       (S k < length [0; 10; 20])%nat
       /\ nth k [0; 10; 20] 0 <= 14 < nth (S k) [0; 10; 20] 0
       /\ 0 <= lambda < 1
       /\ 14 = nth k [0; 10; 20] 0
               + lambda * (nth (S k) [0; 10; 20] 0 - nth k [0; 10; 20] 0)
       /\ result_of (trajectory_control [(0, 0, 0); (10, 0, 0); (10, 10, 0)]
                                        [0; 0.1; 0.3] [0; 10; 20] 14 init)
          = Returned
              (vadd (vscale (vsub (nth (S k) [(0, 0, 0); (10, 0, 0); (10, 10, 0)] zero3)
                                  (nth k [(0, 0, 0); (10, 0, 0); (10, 10, 0)] zero3))
                            lambda)
                    (nth k [(0, 0, 0); (10, 0, 0); (10, 10, 0)] zero3),
               vdiv (vsub (nth (S k) [(0, 0, 0); (10, 0, 0); (10, 10, 0)] zero3)
                          (nth k [(0, 0, 0); (10, 0, 0); (10, 10, 0)] zero3))
                    (nth (S k) [0; 10; 20] 0 - nth k [0; 10; 20] 0),
               nth k [0; 0.1; 0.3] 0).
Proof.
  assert (Hw : waypoints [(0, 0, 0); (10, 0, 0); (10, 10, 0)] [0; 0.1; 0.3]
                 [0; 10; 20]).
  { unfold waypoints. repeat split; try (cbn; lia). repeat constructor; lra. }
  assert (Ht : nth 0 [0; 10; 20] 0 <= 14 < last [0; 10; 20] 0) by (cbn; lra).
  split; [exact Hw | ]. split; [exact Ht | ].
  exact (trajectory_control_interpolates
           [(0, 0, 0); (10, 0, 0); (10, 10, 0)] [0; 0.1; 0.3] [0; 10; 20] 14
           init Hw Ht).
Defined.

(** The trajectory passes through its waypoints: queried exactly at the
    time of waypoint [i] (not the last one), position_cmd is the position
    of that waypoint, yaw_cmd its yaw, and velocity_cmd the velocity of
    the segment that starts there. *)
Theorem trajectory_control_hits_waypoint
  (position_trajectory : list vec3) (yaw_trajectory time_trajectory : list R)
  (i : nat) (self : NonlinearController) :
  waypoints position_trajectory yaw_trajectory time_trajectory ->
  (S i < length time_trajectory)%nat ->
  result_of (trajectory_control position_trajectory yaw_trajectory
                                time_trajectory (nth i time_trajectory 0) self)
  = Returned
      (nth i position_trajectory zero3,
       vdiv (vsub (nth (S i) position_trajectory zero3)
                  (nth i position_trajectory zero3))
            (nth (S i) time_trajectory 0 - nth i time_trajectory 0),
       nth i yaw_trajectory 0).
Proof.
  intros Hw Hi.
  pose proof Hw as (Hpos & Hyaw & Hlen & Hsorted).
  assert (Hne : time_trajectory <> [])
    by (destruct time_trajectory; [cbn in Hlen; lia | discriminate]).
  assert (Hrange : nth 0 time_trajectory 0 <= nth i time_trajectory 0
                   < last time_trajectory 0).
  { rewrite <- (nth_length_pred time_trajectory 0 Hne). split.
    - apply sorted_nth_le; [exact Hsorted | lia].
    - apply sorted_nth_lt; [exact Hsorted | lia]. }
  destruct (select_segment_bracket _ _ _ _ self Hw Hrange)
    as (k & Hk & [Hlo Hhi] & Hsel).
  assert (Hki : k = i).
  { destruct (Nat.lt_trichotomy k i) as [Hlt | [Heq | Hgt]]; [ | exact Heq | ].
    - pose proof (sorted_nth_le _ Hsorted (S k) i ltac:(lia)). lra.
    - pose proof (sorted_nth_lt _ Hsorted i k ltac:(lia)). lra. }
  subst k.
  rewrite (trajectory_control_run _ _ _ _ _ _ _ Hsel). unfold result_of, fst.
  f_equal.
  rewrite (interpolate_fraction _ _ _ _ _ _ 0).
  - f_equal. f_equal.
    destruct (vsub _ _) as [[a b] c], (nth i position_trajectory zero3) as [[x y] z].
    unfold vadd, vscale. f_equal; [f_equal | ]; ring.
  - lra.
  - unfold Rdiv. ring.
Qed.

Lemma trajectory_control_hits_waypoint_witness :
  waypoints [(0, 0, 0); (10, 0, 0); (10, 10, 0)] [0; 0.1; 0.3] [0; 10; 20]
  /\ (2 < length [0; 10; 20])%nat
  /\ result_of (trajectory_control [(0, 0, 0); (10, 0, 0); (10, 10, 0)]
                                   [0; 0.1; 0.3] [0; 10; 20]
                                   (nth 1 [0; 10; 20] 0) init)
     = Returned
         (nth 1 [(0, 0, 0); (10, 0, 0); (10, 10, 0)] zero3,
          vdiv (vsub (nth 2 [(0, 0, 0); (10, 0, 0); (10, 10, 0)] zero3)
                     (nth 1 [(0, 0, 0); (10, 0, 0); (10, 10, 0)] zero3))
               (nth 2 [0; 10; 20] 0 - nth 1 [0; 10; 20] 0),
          nth 1 [0; 0.1; 0.3] 0).
Proof.
  assert (Hw : waypoints [(0, 0, 0); (10, 0, 0); (10, 10, 0)] [0; 0.1; 0.3]
                 [0; 10; 20]).
  { unfold waypoints. repeat split; try (cbn; lia). repeat constructor; lra. }
  assert (Hi : (2 < length [0; 10; 20])%nat) by (cbn; lia).
  split; [exact Hw | ]. split; [exact Hi | ].
  exact (trajectory_control_hits_waypoint
           [(0, 0, 0); (10, 0, 0); (10, 10, 0)] [0; 0.1; 0.3] [0; 10; 20] 1
           init Hw Hi).
Defined.

Lemma altitude_control_saturates_witness :
  0 < mget (rotation_R (0, 0, 0)) 2 2
  /\ exists hi lo : R,
       (forall ff, hi <= ff ->
          result_of (altitude_control 0 0 0 0 (0, 0, 0) ff init)
          = Returned (MAX_THRUST / DRONE_MASS_KG))
       /\ (forall ff, ff <= lo ->
          result_of (altitude_control 0 0 0 0 (0, 0, 0) ff init) = Returned 0.1).
Proof.
  assert (H : 0 < mget (rotation_R (0, 0, 0)) 2 2)
    by (rewrite rotation_R_22, cos_0; lra).
  split; [exact H | ].
  exact (altitude_control_saturates init 0 0 0 0 (0, 0, 0) H).
Defined.
